(** * License header policy of conform: a shallow embedding

    The Go package [internal/policy/license] walks the working directory
    and records an error for every source file that does not start with
    the configured license header.  This file embeds the package
    ([License], [HeaderCheck], [ValidateLicenseHeader], [Compliance]) and
    the parts of the Go standard library it drives ([strings.HasSuffix],
    [bytes.HasPrefix], [filepath.Walk]) over an explicit file tree, and
    proves the properties of the check.

    Effects are explicit: the closure passed to [filepath.Walk] mutates
    [check.errors], so every function threads a [state] that holds the
    check under construction together with the trace of file-system calls
    made so far. *)

From Stdlib Require Import List Bool Arith Lia.
From Stdlib Require Import Strings.String Strings.Ascii Strings.Byte.
From Stdlib Require Import Numbers.DecimalString.
Import ListNotations.
Open Scope string_scope.
Open Scope list_scope.

(** ** Go values *)

(** A Go [error].  The check only ever looks at where an error comes from
    and at its message: [Foreign] errors are made outside the package (by
    the operating system or by the pattern parser), [Fundamental] ones are
    made by the package itself through [errors.New] and [errors.Errorf]
    of github.com/pkg/errors. *)
Inductive error : Type :=
| Foreign (msg : string)
| Fundamental (msg : string).

(** [err.Error()], which is also what the verb [%v] prints. *)
Definition Error (e : error) : string :=
  match e with
  | Foreign msg => msg
  | Fundamental msg => msg
  end.

Module pkgerrors.
Definition New (message : string) : error := Fundamental message.
(** [Errorf] after formatting: the caller passes the formatted message. *)
Definition Errorf (formatted : string) : error := Fundamental formatted.
End pkgerrors.

Module strings.
(** [func HasSuffix(s, suffix string) bool {
      return len(s) >= len(suffix) && s[len(s)-len(suffix):] == suffix }] *)
Definition HasSuffix (s suffix : string) : bool :=
  (String.length suffix <=? String.length s)%nat
  && (substring (String.length s - String.length suffix)
                (String.length suffix) s =? suffix)%string.
End strings.

Module bytes.
Fixpoint Equal (a b : list byte) : bool :=
  match a, b with
  | [], [] => true
  | x :: a', y :: b' => Byte.eqb x y && Equal a' b'
  | _, _ => false
  end.

(** [func HasPrefix(s, prefix []byte) bool {
      return len(s) >= len(prefix) && Equal(s[0:len(prefix)], prefix) }] *)
Definition HasPrefix (s prefix : list byte) : bool :=
  (List.length prefix <=? List.length s)%nat
  && Equal (firstn (List.length prefix) s) prefix.
End bytes.

(** ** The file tree being scanned *)

(** One directory entry.  [File] is anything that is not a directory:
    [regular] is [info.Mode().IsRegular()] and [data] is what reading the
    whole file gives, [None] when the read fails.  [Dir] carries the
    error of listing its names, if any, and its entries in the order
    [filepath.Walk] visits them.  [Broken] is a name whose [lstat] fails:
    the closure is then called with the error and a [nil] info it never
    looks at, for which the model hands it the entry. *)
#[warnings="-register-all"]
Inductive node : Type :=
| File (name : string) (regular : bool) (data : option (list byte))
| Dir (name : string) (listing : option error) (entries : list node)
| Broken (name : string) (e : error).

Module os.
(** The methods of [os.FileInfo] the check calls. *)
Definition Name (info : node) : string :=
  match info with
  | File name _ _ => name
  | Dir name _ _ => name
  | Broken name _ => name
  end.

Definition IsDir (info : node) : bool :=
  match info with
  | Dir _ _ _ => true
  | _ => false
  end.

(** [info.Mode().IsRegular()] *)
Definition IsRegular (info : node) : bool :=
  match info with
  | File _ regular _ => regular
  | _ => false
  end.

(** The error of [os.Lstat] on the entry. *)
Definition Lstat (n : node) : option error :=
  match n with
  | Broken _ e => Some e
  | _ => None
  end.
End os.

(** The calls made to the file system, in the order they are made. *)
Inductive syscall : Type :=
| SysLstat (path : string)
| SysReadDirNames (path : string)
| SysReadFile (path : string).

(** ** The check and the state the walk threads *)

Record HeaderCheck : Type := { errors : list error }.

Record state : Type := { check : HeaderCheck; trace : list syscall }.

(** [check.errors = append(check.errors, e)] *)
Definition append_error (e : error) (s : state) : state :=
  {| check := {| errors := errors (check s) ++ [e] |}; trace := trace s |}.

Definition log (c : syscall) (s : state) : state :=
  {| check := check s; trace := trace s ++ [c] |}.

Module ioutil.
(** [ioutil.ReadFile(path)] on the entry found at [path]: the call is
    logged, the outcome is the one stored in the entry. *)
Definition ReadFile (path : string) (n : node) (s : state)
  : state * option (list byte) :=
  (log (SysReadFile path) s,
   match n with
   | File _ _ data => data
   | _ => None
   end).
End ioutil.

Module filepath.
(** What a [WalkFunc] returns: [nil], the sentinel [SkipDir], or another
    error. *)
Inductive result : Type :=
| Nil
| SkipDir
| Err (e : error).

Definition WalkFunc : Type :=
  string -> node -> option error -> state -> state * result.

(** [Join(path, name)] for a clean relative [path] and the name of a
    directory entry: the result is cleaned, so the leading ["."] of the
    root disappears. *)
Definition Join (path name : string) : string :=
  if (path =? ".")%string then name else (path ++ "/" ++ name)%string.

(** [func walk(path string, info fs.FileInfo, walkFn WalkFunc) error]:
    a non-directory is handed to [walkFn]; a directory is listed first,
    then handed to [walkFn] together with the listing error, and walked
    into only when both are [nil].  In the loop over the names, an entry
    whose [lstat] fails is handed to [walkFn] with that error; [SkipDir]
    returned for a directory only skips it. *)
Fixpoint walk (walkFn : WalkFunc) (path : string) (info : node) (s : state)
  {struct info} : state * result :=
  match info with
  | Dir _ listing entries =>
      let s0 := log (SysReadDirNames path) s in
      let (s1, err1) := walkFn path info listing s0 in
      match listing, err1 with
      | None, Nil =>
          (fix loop (names : list node) (s : state) {struct names}
             : state * result :=
             match names with
             | [] => (s, Nil)
             | n :: rest =>
                 let filename := Join path (os.Name n) in
                 let s' := log (SysLstat filename) s in
                 match os.Lstat n with
                 | Some err =>
                     let (s2, r) := walkFn filename n (Some err) s' in
                     match r with
                     | Err e => (s2, Err e)
                     | _ => loop rest s2
                     end
                 | None =>
                     let (s2, r) := walk walkFn filename n s' in
                     match r with
                     | Nil => loop rest s2
                     | SkipDir =>
                         if os.IsDir n then loop rest s2 else (s2, SkipDir)
                     | Err e => (s2, Err e)
                     end
                 end
             end) entries s1
      | _, _ => (s1, err1)
      end
  | _ => walkFn path info None s
  end.

(** The loop of [walk] over the names of a directory, on its own. *)
Fixpoint walk_names (walkFn : WalkFunc) (path : string) (names : list node)
  (s : state) {struct names} : state * result :=
  match names with
  | [] => (s, Nil)
  | n :: rest =>
      let filename := Join path (os.Name n) in
      let s' := log (SysLstat filename) s in
      match os.Lstat n with
      | Some err =>
          let (s2, r) := walkFn filename n (Some err) s' in
          match r with
          | Err e => (s2, Err e)
          | _ => walk_names walkFn path rest s2
          end
      | None =>
          let (s2, r) := walk walkFn filename n s' in
          match r with
          | Nil => walk_names walkFn path rest s2
          | SkipDir =>
              if os.IsDir n then walk_names walkFn path rest s2
              else (s2, SkipDir)
          | Err e => (s2, Err e)
          end
      end
  end.

(** [func Walk(root string, fn WalkFunc) error]: [lstat] the root, hand
    it to [fn] when that fails and [walk] it otherwise; [SkipDir] coming
    back from the root is not an error. *)
Definition Walk (root : string) (tree : node) (fn : WalkFunc) (s : state)
  : state * option error :=
  let s0 := log (SysLstat root) s in
  let (s1, r) :=
    match os.Lstat tree with
    | Some err => fn root tree (Some err) s0
    | None => walk fn root tree s0
    end in
  match r with
  | Err e => (s1, Some e)
  | _ => (s1, None)
  end.
End filepath.

(** ** The ignore-pattern library *)

(** github.com/denormal/go-gitignore is a dependency, not part of the
    package: the check is stated for any library of this shape.  [parse]
    is the parsing done by [gitignore.New] on the pattern lines: it gives
    the errors the parser meets, in order, and the matcher built from the
    lines.  [Relative m path isdir] says whether
    [m.Relative(path, isdir)] is a non-[nil] match. *)
Record GitError : Type := { Underlying : error }.

Record Library : Type := {
  GitIgnore : Type;
  parse : string -> list GitError * GitIgnore;
  Relative : GitIgnore -> string -> bool -> bool
}.

Module gitignore.
(** The parser hands every error to the handler and goes on for as long
    as the handler answers [true]. *)
Fixpoint report (handler : GitError -> state -> state * bool)
  (errs : list GitError) (s : state) : state :=
  match errs with
  | [] => s
  | e :: rest =>
      let (s', more) := handler e s in
      if more then report handler rest s' else s'
  end.

(** [gitignore.New(r, base, errors)], [r] holding [buf].  It reads no
    file: the patterns come from the buffer. *)
Definition New (lib : Library) (buf : string)
  (handler : GitError -> state -> state * bool) (s : state)
  : state * GitIgnore lib :=
  let (errs, matcher) := parse lib buf in
  (report handler errs s, matcher).
End gitignore.

(** ** Package license *)

Record License : Type := {
  SkipPaths : list string;
  IncludeSuffixes : list string;
  ExcludeSuffixes : list string;
  Header : string
}.

(** [Name], [Message] and [Errors] of [HeaderCheck]. *)
Definition HeaderCheck_Name (l : HeaderCheck) : string := "File Header".

Definition HeaderCheck_Message (l : HeaderCheck) : string :=
  if negb (List.length (errors l) =? 0)%nat then
    ("Found "
     ++ NilEmpty.string_of_uint (Nat.to_uint (List.length (errors l)))
     ++ " files without license header")%string
  else "All files have a valid license header".

Definition HeaderCheck_Errors (l : HeaderCheck) : list error := errors l.

(** The newline of a Go string literal. *)
Definition LF : string := String "010"%char "".

(** The buffer [ValidateLicenseHeader] fills: each pattern, then a newline. *)
Fixpoint pattern_lines (patterns : list string) : string :=
  match patterns with
  | [] => ""
  | pattern :: rest => (pattern ++ LF ++ pattern_lines rest)%string
  end.

Module policy.
(** Modelled from the spec: package [internal/policy] ([Check],
    [Report], [AddCheck]) is not among the sources.  A check is a value
    with the three operations name, summary and findings; a report owns
    the ordered list of what was added to it. *)
Record Check : Type := {
  Name : string;
  Message : string;
  Errors : list error
}.

Record Report : Type := { checks : list Check }.

Definition AddCheck (c : Check) (r : Report) : Report :=
  {| checks := checks r ++ [c] |}.
End policy.

(** [HeaderCheck] seen through the [policy.Check] interface. *)
Definition as_Check (c : HeaderCheck) : policy.Check :=
  {| policy.Name := HeaderCheck_Name c;
     policy.Message := HeaderCheck_Message c;
     policy.Errors := HeaderCheck_Errors c |}.

Section Package.
Variable lib : Library.

(** The loop over [l.IncludeSuffixes] in the closure.  A failed read
    leaves the closure with [nil]; so does the end of the loop, hence
    only the state is returned. *)
Fixpoint check_includes (value : list byte) (path : string) (info : node)
  (suffixes : list string) (s : state) {struct suffixes} : state :=
  match suffixes with
  | [] => s
  | suffix :: rest =>
      if strings.HasSuffix (os.Name info) suffix then
        let (s1, contents) := ioutil.ReadFile path info s in
        match contents with
        | None =>
            append_error
              (pkgerrors.Errorf ("Failed to open " ++ path)%string) s1
        | Some contents =>
            if bytes.HasPrefix contents value then
              check_includes value path info rest s1
            else
              check_includes value path info rest
                (append_error
                   (pkgerrors.Errorf
                      ("File " ++ path
                       ++ " does not contain a license header")%string)
                   s1)
        end
      else check_includes value path info rest s
  end.

(** The test on the pattern matcher at the head of the closure: [Some r]
    when the closure returns [r] there, [None] when it goes on. *)
Definition skip_test (patternmatcher : GitIgnore lib) (path : string)
  (info : node) : option filepath.result :=
  if Relative lib patternmatcher path (os.IsDir info) then
    if os.IsDir info then
      if os.IsDir info then Some filepath.SkipDir
      else Some filepath.Nil
    else None
  else None.

(** The closure handed to [filepath.Walk]. *)
Definition walkFn (l : License) (patternmatcher : GitIgnore lib)
  (value : list byte) : filepath.WalkFunc :=
  fun path info err s =>
    match err with
    | Some e => (s, filepath.Err e)
    | None =>
        match skip_test patternmatcher path info with
        | Some r => (s, r)
        | None =>
            if os.IsRegular info then
              if existsb (fun suffix => strings.HasSuffix (os.Name info) suffix)
                   (ExcludeSuffixes l)
              then (s, filepath.Nil)
              else (check_includes value path info (IncludeSuffixes l) s,
                    filepath.Nil)
            else (s, filepath.Nil)
        end
    end.

(** The handler given to [gitignore.New]. *)
Definition pattern_handler (e : GitError) (s : state) : state * bool :=
  (append_error (Underlying e) s, true).

Definition start : state :=
  {| check := {| errors := [] |}; trace := [] |}.

(** [ValidateLicenseHeader] run in the directory holding [tree].  The
    check it returns is [check] of the result; [trace] is what it asked
    of the file system on the way. *)
Definition ValidateLicenseHeader (l : License) (tree : node) : state :=
  let buf := pattern_lines (SkipPaths l) in
  let (s, patternmatcher) := gitignore.New lib buf pattern_handler start in
  if (Header l =? "")%string then
    append_error (pkgerrors.New "Header is not defined") s
  else
    let value := list_byte_of_string (Header l) in
    let (s', err) :=
      filepath.Walk "." tree (walkFn l patternmatcher value) s in
    match err with
    | Some e =>
        append_error
          (pkgerrors.Errorf ("Failed to walk directory: " ++ Error e)%string)
          s'
    | None => s'
    end.

(** [options] is a pointer to a type of package [internal/policy],
    which the package never looks into. *)
Variable Options : Type.

Definition Compliance (l : License) (options : option Options)
  (tree : node) : policy.Report * option error :=
  let report := {| policy.checks := [] |} in
  let report :=
    policy.AddCheck (as_Check (check (ValidateLicenseHeader l tree))) report in
  (report, None).
End Package.

(** ** A small pattern library and trees to run the check on *)

Module sample.
Definition CR : ascii := "013"%char.

Fixpoint split_lines (buf : string) : list string :=
  match buf with
  | EmptyString => []
  | String c rest =>
      if (c =? "010")%char then "" :: split_lines rest
      else
        match split_lines rest with
        | [] => [String c ""]
        | line :: more => String c line :: more
        end
  end.

Definition CarriageReturnError : GitError :=
  {| Underlying := Foreign "unexpected carriage return '\r'" |}.

(** One error for every carriage return that no newline follows. *)
Fixpoint bare_returns (buf : string) : list GitError :=
  match buf with
  | EmptyString => []
  | String c rest =>
      if (c =? CR)%char then
        match rest with
        | EmptyString => []
        | String d _ =>
            if (d =? "010")%char then bare_returns rest
            else CarriageReturnError :: bare_returns rest
        end
      else bare_returns rest
  end.

(** A pattern is a literal path; with a trailing slash it only matches
    a directory. *)
Definition matches (patterns : list string) (path : string) (isdir : bool)
  : bool :=
  existsb (fun pattern =>
             (pattern =? path)%string
             || (isdir && (pattern =? path ++ "/")%string))
          patterns.

(** Literal patterns, and the parser's complaint about a stray carriage
    return: enough of an ignore-pattern library to run the check. *)
Definition literal : Library :=
  {| GitIgnore := list string;
     parse := fun buf => (bare_returns buf, split_lines buf);
     Relative := matches |}.

Definition copyright : string := "// Copyright" ++ LF.

Definition with_header : list byte :=
  list_byte_of_string (copyright ++ "package a" ++ LF).

Definition without_header : list byte :=
  list_byte_of_string ("package b" ++ LF).

(** The tree of the scenario of the specification: [a.go] has the
    header, [b.go] and [vendor/c.go] do not, [README] has no suffix. *)
Definition scenario : node :=
  Dir "." None
    [ File "README" true (Some without_header);
      File "a.go" true (Some with_header);
      File "b.go" true (Some without_header);
      Dir "vendor" None [ File "c.go" true (Some without_header) ] ].

Definition go_files : License :=
  {| SkipPaths := ["vendor/"];
     IncludeSuffixes := [".go"];
     ExcludeSuffixes := [];
     Header := copyright |}.

(** [b.go] is itself a skip path. *)
Definition skip_b : License :=
  {| SkipPaths := ["vendor/"; "b.go"];
     IncludeSuffixes := [".go"];
     ExcludeSuffixes := [];
     Header := copyright |}.

(** Two include suffixes that [b.go] both ends with. *)
Definition two_suffixes : License :=
  {| SkipPaths := ["vendor/"];
     IncludeSuffixes := [".go"; "go"];
     ExcludeSuffixes := [];
     Header := copyright |}.

(** A pattern with a carriage return in the middle. *)
Definition stray_return : string := "a" ++ String CR "b".

Definition no_header : License :=
  {| SkipPaths := [stray_return];
     IncludeSuffixes := [".go"];
     ExcludeSuffixes := [];
     Header := "" |}.


Definition skip_tests : License :=
  {| SkipPaths := [];
     IncludeSuffixes := [".go"];
     ExcludeSuffixes := ["_test.go"];
     Header := copyright |}.

Definition with_test : node :=
  Dir "." None [ File "foo_test.go" true (Some without_header) ].

(** [x.go] cannot be read, [z] cannot be [lstat]ed. *)
Definition damaged : node :=
  Dir "." None
    [ File "x.go" true None;
      File "y.go" true (Some without_header);
      Broken "z" (Foreign "lstat z: permission denied");
      File "zz.go" true (Some without_header) ].
End sample.

(** ** What the properties are stated with *)

(** [name] ends with [suffix]; [contents] begins with [value]. *)
Definition ends_with (name suffix : string) : Prop :=
  exists stem, name = (stem ++ suffix)%string.

Definition begins_with (contents value : list byte) : Prop :=
  exists rest, contents = value ++ rest.

(** The two messages the closure makes for a path. *)
Definition failed_to_open (path : string) : error :=
  Fundamental ("Failed to open " ++ path)%string.

Definition no_license_header (path : string) : error :=
  Fundamental ("File " ++ path ++ " does not contain a license header")%string.


(** How many of the [suffixes] the name ends with. *)
Definition matching (name : string) (suffixes : list string) : nat :=
  List.length (filter (fun suffix => strings.HasSuffix name suffix) suffixes).




(** Every entry of a tree, directories included, with the path
    [filepath.walk] gives it. *)
Fixpoint nodes (path : string) (n : node) {struct n} : list (string * node) :=
  match n with
  | Dir _ _ entries =>
      (path, n)
      :: flat_map (fun m => nodes (filepath.Join path (os.Name m)) m) entries
  | _ => [(path, n)]
  end.

(** No entry of the tree fails to be [lstat]ed or listed. *)
Fixpoint healthy (n : node) {struct n} : bool :=
  match n with
  | File _ _ _ => true
  | Dir _ None entries => forallb healthy entries
  | Dir _ (Some _) _ => false
  | Broken _ _ => false
  end.

(** The entries that are not directories and do not lie below a directory
    the matcher matches, in the order of the walk. *)
Fixpoint reached (lib : Library) (pm : GitIgnore lib) (path : string)
  (n : node) {struct n} : list (string * node) :=
  match n with
  | Dir _ _ entries =>
      if Relative lib pm path true then []
      else
        flat_map (fun m => reached lib pm (filepath.Join path (os.Name m)) m)
          entries
  | _ => [(path, n)]
  end.

(** What the closure records for one entry, taken on its own. *)
Definition recorded (lib : Library) (l : License) (pm : GitIgnore lib)
  (value : list byte) (entry : string * node) : list error :=
  errors (check (fst (walkFn lib l pm value (fst entry) (snd entry) None
                        start))).

(** The name passes the two suffix lists of [l]. *)
Definition selected (l : License) (name : string) : Prop :=
  Forall (fun suffix => ~ ends_with name suffix) (ExcludeSuffixes l)
  /\ Exists (ends_with name) (IncludeSuffixes l).

(** [e] is what a selected regular file among [entries] deserves: it
    cannot be read, or it does not begin with [value]. *)
Definition justified_error (l : License) (value : list byte)
  (entries : list (string * node)) (e : error) : Prop :=
  exists p name data,
    In (p, File name true data) entries
    /\ selected l name
    /\ match data with
       | None => e = failed_to_open p
       | Some contents =>
           ~ begins_with contents value /\ e = no_license_header p
       end.

(** [c] is a call on one of the [entries]: any of them is [lstat]ed, only
    a directory is listed, only a selected regular file is read. *)
Definition justified_call (l : License) (entries : list (string * node))
  (c : syscall) : Prop :=
  match c with
  | SysLstat p => exists n, In (p, n) entries
  | SysReadDirNames p =>
      exists name listing below, In (p, Dir name listing below) entries
  | SysReadFile p =>
      exists name data,
        In (p, File name true data) entries /\ selected l name
  end.

(** From [s] to [s'] only justified errors and calls were added. *)
Definition sound (l : License) (value : list byte)
  (entries : list (string * node)) (s s' : state) : Prop :=
  exists es cs,
    errors (check s') = errors (check s) ++ es
    /\ trace s' = trace s ++ cs
    /\ Forall (justified_error l value entries) es
    /\ Forall (justified_call l entries) cs.


(** What the walk gets to see of a tree: the entries that are not
    directories, in the order the closure is given them, up to the first
    entry that fails, and that failure.  A directory that cannot be listed
    fails before the matcher is asked; a directory the matcher matches is
    not entered; the names after a failure are not looked at. *)
Fixpoint scan (lib : Library) (pm : GitIgnore lib) (path : string)
  (n : node) {struct n} : list (string * node) * option error :=
  match n with
  | File _ _ _ => ([(path, n)], None)
  | Broken _ e => ([], Some e)
  | Dir _ (Some e) _ => ([], Some e)
  | Dir _ None entries =>
      if Relative lib pm path true then ([], None)
      else
        (fix over (names : list node) {struct names}
           : list (string * node) * option error :=
           match names with
           | [] => ([], None)
           | m :: rest =>
               let (seen, failed) :=
                 scan lib pm (filepath.Join path (os.Name m)) m in
               match failed with
               | Some e => (seen, Some e)
               | None =>
                   let (seen', failed') := over rest in
                   (seen ++ seen', failed')
               end
           end) entries
  end.

(** [scan] over the names of a directory, on its own. *)
Fixpoint scan_names (lib : Library) (pm : GitIgnore lib) (path : string)
  (names : list node) {struct names} : list (string * node) * option error :=
  match names with
  | [] => ([], None)
  | m :: rest =>
      let (seen, failed) := scan lib pm (filepath.Join path (os.Name m)) m in
      match failed with
      | Some e => (seen, Some e)
      | None =>
          let (seen', failed') := scan_names lib pm path rest in
          (seen ++ seen', failed')
      end
  end.


(** * Properties *)

(** ** Strings and bytes *)

Lemma length_append (a b : string) :
  String.length (a ++ b) = String.length a + String.length b.
Proof.
  induction a as [|c a IH]; simpl; [reflexivity | now rewrite IH].
Qed.

Lemma substring_whole (s : string) : substring 0 (String.length s) s = s.
Proof.
  induction s as [|c s IH]; simpl; [reflexivity | now rewrite IH].
Qed.

Lemma substring_after (stem s : string) (m : nat) :
  substring (String.length stem) m (stem ++ s) = substring 0 m s.
Proof.
  induction stem as [|c stem IH]; simpl; [reflexivity | exact IH].
Qed.

Lemma substring_split (s : string) :
  forall n, n <= String.length s ->
    s = (substring 0 n s ++ substring n (String.length s - n) s)%string.
Proof.
  induction s as [|c s IH]; intros n Hn; simpl in *.
  - assert (n = 0) by lia. subst n. reflexivity.
  - destruct n as [|n]; simpl.
    + now rewrite substring_whole.
    + rewrite <- (IH n) by lia. reflexivity.
Qed.

(** [strings.HasSuffix] is the trailing-substring test. *)
Lemma HasSuffix_spec (s suffix : string) :
  strings.HasSuffix s suffix = true <-> ends_with s suffix.
Proof.
  unfold strings.HasSuffix, ends_with. split.
  - intros H. apply andb_true_iff in H as [Hlen Heq].
    apply Nat.leb_le in Hlen. apply String.eqb_eq in Heq.
    exists (substring 0 (String.length s - String.length suffix) s).
    pose proof (substring_split s (String.length s - String.length suffix))
      as Hsplit.
    replace (String.length s - (String.length s - String.length suffix))
      with (String.length suffix) in Hsplit by lia.
    rewrite Heq in Hsplit. apply Hsplit. lia.
  - intros [stem ->]. rewrite length_append. apply andb_true_iff. split.
    + apply Nat.leb_le. lia.
    + replace (String.length stem + String.length suffix - String.length suffix)
        with (String.length stem) by lia.
      rewrite substring_after, substring_whole. apply String.eqb_refl.
Qed.

Lemma HasSuffix_false (s suffix : string) :
  strings.HasSuffix s suffix = false <-> ~ ends_with s suffix.
Proof.
  rewrite <- HasSuffix_spec. destruct (strings.HasSuffix s suffix); split;
    intros H; try reflexivity; try discriminate; try (intro; discriminate).
  exfalso. now apply H.
Qed.

Lemma Equal_spec (a b : list byte) : bytes.Equal a b = true <-> a = b.
Proof.
  revert b. induction a as [|x a IH]; intros [|y b]; simpl; split;
    intros H; try reflexivity; try discriminate.
  - apply andb_true_iff in H as [Hxy Hab].
    apply Byte.byte_dec_bl in Hxy. apply IH in Hab. now subst.
  - injection H as -> ->. apply andb_true_iff. split.
    + now apply Byte.byte_dec_lb.
    + now apply IH.
Qed.

(** [bytes.HasPrefix] is byte equality over the leading [len(prefix)]
    bytes. *)
Lemma HasPrefix_spec (s prefix : list byte) :
  bytes.HasPrefix s prefix = true <-> begins_with s prefix.
Proof.
  unfold bytes.HasPrefix, begins_with. split.
  - intros H. apply andb_true_iff in H as [_ Heq]. apply Equal_spec in Heq.
    exists (skipn (List.length prefix) s).
    rewrite <- Heq at 1. symmetry. apply firstn_skipn.
  - intros [rest ->]. apply andb_true_iff. split.
    + apply Nat.leb_le. rewrite length_app. lia.
    + apply Equal_spec. rewrite firstn_app, firstn_all, Nat.sub_diag.
      simpl. apply app_nil_r.
Qed.

Lemma HasPrefix_false (s prefix : list byte) :
  bytes.HasPrefix s prefix = false <-> ~ begins_with s prefix.
Proof.
  rewrite <- HasPrefix_spec. destruct (bytes.HasPrefix s prefix); split;
    intros H; try reflexivity; try discriminate; try (intro; discriminate).
  exfalso. now apply H.
Qed.

(** A file shorter than the header does not begin with it. *)
Lemma shorter_not_begins_with (s prefix : list byte) :
  List.length s < List.length prefix -> ~ begins_with s prefix.
Proof.
  intros Hlen [rest ->]. rewrite length_app in Hlen. lia.
Qed.

(** The two suffix loops of the closure, in the words of the lists. *)
Lemma excluded_spec (name : string) (suffixes : list string) :
  existsb (fun suffix => strings.HasSuffix name suffix) suffixes = true
  <-> Exists (ends_with name) suffixes.
Proof.
  rewrite existsb_exists, Exists_exists.
  split; intros [x [Hin H]]; exists x; split; auto; now apply HasSuffix_spec.
Qed.

Lemma not_excluded_spec (name : string) (suffixes : list string) :
  existsb (fun suffix => strings.HasSuffix name suffix) suffixes = false
  <-> Forall (fun suffix => ~ ends_with name suffix) suffixes.
Proof.
  split; intros H.
  - apply Forall_Exists_neg. intros HE. apply excluded_spec in HE. congruence.
  - apply Forall_Exists_neg in H.
    destruct (existsb _ suffixes) eqn:E; [exfalso | reflexivity].
    apply H. now apply excluded_spec.
Qed.

(** ** The walk *)

(** [walk] on a directory, with its loop named. *)
Lemma walk_Dir (fn : filepath.WalkFunc) (path name : string)
  (listing : option error) (entries : list node) (s : state) :
  filepath.walk fn path (Dir name listing entries) s =
  let s0 := log (SysReadDirNames path) s in
  let (s1, err1) := fn path (Dir name listing entries) listing s0 in
  match listing, err1 with
  | None, filepath.Nil => filepath.walk_names fn path entries s1
  | _, _ => (s1, err1)
  end.
Proof.
  cbn [filepath.walk]. cbv zeta.
  destruct (fn path (Dir name listing entries) listing
              (log (SysReadDirNames path) s)) as [s1 err1].
  destruct listing; [reflexivity|]. destruct err1; try reflexivity.
  revert s1. induction entries as [|n rest IH]; intros s1; [reflexivity|].
  cbn [filepath.walk_names]. cbv zeta.
  destruct (os.Lstat n).
  - destruct (fn _ n (Some e) _) as [s2 []]; try apply IH; reflexivity.
  - destruct (filepath.walk fn _ n _) as [s2 []]; try apply IH;
      try reflexivity.
    destruct (os.IsDir n); [apply IH | reflexivity].
Qed.

Lemma walk_File (fn : filepath.WalkFunc) (path name : string)
  (regular : bool) (data : option (list byte)) (s : state) :
  filepath.walk fn path (File name regular data) s =
  fn path (File name regular data) None s.
Proof. reflexivity. Qed.

(** Induction on a tree, with the entries of a directory as hypotheses. *)
Lemma node_induction (P : node -> Prop) :
  (forall name regular data, P (File name regular data)) ->
  (forall name listing entries,
      Forall P entries -> P (Dir name listing entries)) ->
  (forall name e, P (Broken name e)) ->
  forall n, P n.
Proof.
  intros HFile HDir HBroken.
  fix IH 1. intros [name regular data | name listing entries | name e].
  - apply HFile.
  - apply HDir. induction entries as [|m entries IHentries].
    + constructor.
    + constructor; [apply IH | exact IHentries].
  - apply HBroken.
Qed.

(** ** The closure on one entry *)

Section Closure.
Variable lib : Library.
Variable l : License.
Variable patternmatcher : GitIgnore lib.
Variable value : list byte.

(** The matcher is only ever obeyed on a directory. *)
Lemma skip_test_file (path : string) (info : node) :
  os.IsDir info = false -> skip_test lib patternmatcher path info = None.
Proof.
  intros Hdir. unfold skip_test. rewrite Hdir.
  now destruct (Relative lib patternmatcher path false).
Qed.

Lemma skip_test_matched_dir (path : string) (info : node) :
  os.IsDir info = true ->
  Relative lib patternmatcher path true = true ->
  skip_test lib patternmatcher path info = Some filepath.SkipDir.
Proof.
  intros Hdir Hrel. unfold skip_test. now rewrite Hdir, Hrel.
Qed.

(** The include loop on a file that begins with the header: one read
    for each suffix the name ends with, and no error. *)
Lemma check_includes_compliant (path name : string) (regular : bool)
  (contents : list byte) (suffixes : list string) (s : state) :
  bytes.HasPrefix contents value = true ->
  check_includes value path (File name regular (Some contents)) suffixes s
  = {| check := check s;
       trace := trace s ++ repeat (SysReadFile path) (matching name suffixes) |}.
Proof.
  intros Hprefix. revert s.
  induction suffixes as [|suffix rest IH]; intros s; unfold matching; simpl.
  - rewrite app_nil_r. now destruct s.
  - destruct (strings.HasSuffix name suffix); simpl.
    + rewrite Hprefix, IH. unfold matching. simpl.
      now rewrite <- app_assoc.
    + apply IH.
Qed.

(** On a readable file that does not begin with the header: one read
    and one error for each suffix the name ends with. *)
Lemma check_includes_violating (path name : string) (regular : bool)
  (contents : list byte) (suffixes : list string) (s : state) :
  bytes.HasPrefix contents value = false ->
  check_includes value path (File name regular (Some contents)) suffixes s
  = {| check :=
         {| errors := errors (check s)
                      ++ repeat (no_license_header path)
                                (matching name suffixes) |};
       trace := trace s ++ repeat (SysReadFile path) (matching name suffixes) |}.
Proof.
  intros Hprefix. revert s.
  induction suffixes as [|suffix rest IH]; intros s; unfold matching; simpl.
  - rewrite !app_nil_r. now destruct s as [[es] tr].
  - destruct (strings.HasSuffix name suffix); simpl.
    + rewrite Hprefix, IH. unfold matching. simpl.
      now rewrite <- !app_assoc.
    + apply IH.
Qed.

(** On a file that cannot be read: the first suffix the name ends with
    ends the loop with one read and one error. *)
Lemma check_includes_unreadable (path name : string) (regular : bool)
  (suffixes : list string) (s : state) :
  check_includes value path (File name regular None) suffixes s
  = if existsb (fun suffix => strings.HasSuffix name suffix) suffixes
    then append_error (failed_to_open path) (log (SysReadFile path) s)
    else s.
Proof.
  induction suffixes as [|suffix rest IH]; simpl; [reflexivity|].
  destruct (strings.HasSuffix name suffix); simpl; [reflexivity | exact IH].
Qed.

Lemma matching_positive (name : string) (suffixes : list string) :
  Exists (ends_with name) suffixes -> 0 < matching name suffixes.
Proof.
  intros H. apply excluded_spec in H. unfold matching.
  induction suffixes as [|suffix rest IH]; simpl in *; [discriminate|].
  destruct (strings.HasSuffix name suffix); simpl in *; [lia | auto].
Qed.

(** The closure on a regular file that no exclude suffix ends. *)
Lemma walkFn_applicable (path name : string) (data : option (list byte))
  (s : state) :
  Forall (fun suffix => ~ ends_with name suffix) (ExcludeSuffixes l) ->
  walkFn lib l patternmatcher value path (File name true data) None s
  = (check_includes value path (File name true data) (IncludeSuffixes l) s,
     filepath.Nil).
Proof.
  intros Hexcl. apply not_excluded_spec in Hexcl.
  unfold walkFn. rewrite skip_test_file by reflexivity.
  simpl. now rewrite Hexcl.
Qed.
End Closure.

(** ** What the walk does with one entry *)

Section Entries.
Variable lib : Library.
Variable l : License.
Variable patternmatcher : GitIgnore lib.

(** C4: a regular file that no exclude suffix ends, that some include
    suffix ends and whose contents begin with the configured header is
    read by the walk and leaves the check as it was: no error is recorded
    for it.  This holds whether or not the pattern matcher matches the
    path. *)
Theorem header_present_no_violation (path name : string)
  (contents : list byte) (s : state) :
  Forall (fun suffix => ~ ends_with name suffix) (ExcludeSuffixes l) ->
  Exists (ends_with name) (IncludeSuffixes l) ->
  begins_with contents (list_byte_of_string (Header l)) ->
  exists s',
    filepath.walk (walkFn lib l patternmatcher (list_byte_of_string (Header l)))
      path (File name true (Some contents)) s = (s', filepath.Nil)
    /\ check s' = check s
    /\ In (SysReadFile path) (trace s').
Proof.
  intros Hexcl Hincl Hprefix. apply HasPrefix_spec in Hprefix.
  rewrite walk_File, walkFn_applicable by exact Hexcl.
  rewrite check_includes_compliant by exact Hprefix.
  eexists. split; [reflexivity|]. split; [reflexivity|]. simpl.
  apply in_or_app. right.
  pose proof (matching_positive name (IncludeSuffixes l) Hincl) as Hpos.
  destruct (matching name (IncludeSuffixes l)); [lia | now left].
Qed.

(** C5: a file whose name ends with an exclude suffix is left alone by
    the walk, whatever the include suffixes are: the state is unchanged,
    so the file is not read and no error is recorded for it. *)
Theorem exclude_suffix_wins (value : list byte) (path name : string)
  (regular : bool) (data : option (list byte)) (s : state) :
  Exists (ends_with name) (ExcludeSuffixes l) ->
  filepath.walk (walkFn lib l patternmatcher value)
    path (File name regular data) s = (s, filepath.Nil).
Proof.
  intros Hexcl. apply excluded_spec in Hexcl.
  rewrite walk_File. unfold walkFn.
  rewrite skip_test_file by reflexivity. simpl.
  rewrite Hexcl. now destruct regular.
Qed.

(** A readable regular file that no exclude suffix ends and that does not
    begin with the header: the walk reads it and records the same error
    once for each include suffix its name ends with. *)
Lemma violating_file_errors (path name : string) (contents : list byte)
  (s : state) :
  Forall (fun suffix => ~ ends_with name suffix) (ExcludeSuffixes l) ->
  ~ begins_with contents (list_byte_of_string (Header l)) ->
  errors (check (fst (filepath.walk
                        (walkFn lib l patternmatcher
                           (list_byte_of_string (Header l)))
                        path (File name true (Some contents)) s)))
  = errors (check s)
    ++ repeat (no_license_header path) (matching name (IncludeSuffixes l)).
Proof.
  intros Hexcl Hprefix. apply HasPrefix_false in Hprefix.
  rewrite walk_File, walkFn_applicable by exact Hexcl.
  now rewrite check_includes_violating by exact Hprefix.
Qed.

(** The closure never looks into a directory the matcher matches. *)
Lemma walk_matched_dir (value : list byte) (path name : string)
  (listing : option error) (entries : list node) (s : state) :
  Relative lib patternmatcher path true = true ->
  filepath.walk (walkFn lib l patternmatcher value)
    path (Dir name listing entries) s
  = (log (SysReadDirNames path) s,
     match listing with
     | None => filepath.SkipDir
     | Some e => filepath.Err e
     end).
Proof.
  intros Hrel. rewrite walk_Dir. cbv zeta. unfold walkFn.
  destruct listing as [e|]; [reflexivity|].
  now rewrite skip_test_matched_dir.
Qed.

(** C6: a directory whose path the pattern matcher matches is pruned.
    Walking it only lists the directory itself: the state that comes out
    does not depend on its entries, none of which is visited, read or
    reported; and the loop of the parent goes on with the next name. *)
Theorem matched_directory_is_pruned (value : list byte)
  (parent name : string) (listing : option error) (entries rest : list node)
  (s : state) :
  Relative lib patternmatcher (filepath.Join parent name) true = true ->
  filepath.walk (walkFn lib l patternmatcher value)
    (filepath.Join parent name) (Dir name listing entries) s
  = (log (SysReadDirNames (filepath.Join parent name)) s,
     match listing with
     | None => filepath.SkipDir
     | Some e => filepath.Err e
     end)
  /\ filepath.walk_names (walkFn lib l patternmatcher value)
       parent (Dir name None entries :: rest) s
     = filepath.walk_names (walkFn lib l patternmatcher value) parent rest
         (log (SysReadDirNames (filepath.Join parent name))
            (log (SysLstat (filepath.Join parent name)) s)).
Proof.
  intros Hrel. split; [now apply walk_matched_dir|].
  cbn [filepath.walk_names os.Lstat os.Name]. cbv zeta.
  now rewrite walk_matched_dir.
Qed.

(** C8: a regular file that no exclude suffix ends, that some include
    suffix ends and that cannot be read gets exactly one error, the read
    failure: after the walk of the file the check holds the errors it
    held before followed by that one error, the file has been read once,
    and the closure returns [nil]; the loop of the parent goes on with the
    remaining names from that state. *)
Theorem unreadable_file_one_error (value : list byte)
  (parent name : string) (rest : list node) (s : state) :
  Forall (fun suffix => ~ ends_with name suffix) (ExcludeSuffixes l) ->
  Exists (ends_with name) (IncludeSuffixes l) ->
  filepath.walk (walkFn lib l patternmatcher value)
    (filepath.Join parent name) (File name true None) s
  = ({| check :=
          {| errors := errors (check s)
                       ++ [failed_to_open (filepath.Join parent name)] |};
        trace := trace s ++ [SysReadFile (filepath.Join parent name)] |},
     filepath.Nil)
  /\ filepath.walk_names (walkFn lib l patternmatcher value)
       parent (File name true None :: rest) s
     = filepath.walk_names (walkFn lib l patternmatcher value) parent rest
         {| check :=
              {| errors := errors (check s)
                           ++ [failed_to_open (filepath.Join parent name)] |};
            trace := trace s
                     ++ [SysLstat (filepath.Join parent name);
                         SysReadFile (filepath.Join parent name)] |}.
Proof.
  intros Hexcl Hincl. apply excluded_spec in Hincl.
  assert (Hwalk : forall s0,
    filepath.walk (walkFn lib l patternmatcher value)
      (filepath.Join parent name) (File name true None) s0
    = ({| check :=
            {| errors := errors (check s0)
                         ++ [failed_to_open (filepath.Join parent name)] |};
          trace := trace s0 ++ [SysReadFile (filepath.Join parent name)] |},
       filepath.Nil)).
  { intros s0. rewrite walk_File, walkFn_applicable by exact Hexcl.
    now rewrite check_includes_unreadable, Hincl. }
  split; [apply Hwalk|].
  cbn [filepath.walk_names os.Lstat os.Name]. cbv zeta.
  rewrite Hwalk. simpl. now rewrite <- app_assoc.
Qed.
End Entries.

(** ** Every error of the walk is about a file of the tree *)





Section Soundness.
Variable lib : Library.
Variable l : License.
Variable patternmatcher : GitIgnore lib.
Variable value : list byte.




End Soundness.

(** ** The whole check *)

Lemma report_pattern_handler (errs : list GitError) (s : state) :
  gitignore.report pattern_handler errs s
  = {| check := {| errors := errors (check s) ++ map Underlying errs |};
       trace := trace s |}.
Proof.
  revert s. induction errs as [|e rest IH]; intros [[es] tr]; simpl.
  - now rewrite app_nil_r.
  - rewrite IH. simpl. now rewrite <- app_assoc.
Qed.

Section Run.
Variable lib : Library.

(** What [gitignore.New] leaves in the check before anything else is
    looked at: the underlying error of every pattern the parser refuses. *)
Lemma New_from_start (buf : string) :
  gitignore.New lib buf pattern_handler start
  = ({| check := {| errors := map Underlying (fst (parse lib buf)) |};
        trace := [] |},
     snd (parse lib buf)).
Proof.
  unfold gitignore.New. destruct (parse lib buf) as [errs matcher].
  now rewrite report_pattern_handler.
Qed.

(** C3, as the code has it: with an empty header the check holds the
    underlying errors of the skip patterns the parser refuses, if any,
    followed by exactly one error saying that the header is not defined;
    no file is read and nothing is walked, the trace of file-system calls
    is empty. *)
Theorem empty_header_reported_without_walk (l : License) (tree : node) :
  Header l = "" ->
  errors (check (ValidateLicenseHeader lib l tree))
  = map Underlying (fst (parse lib (pattern_lines (SkipPaths l))))
    ++ [pkgerrors.New "Header is not defined"]
  /\ trace (ValidateLicenseHeader lib l tree) = [].
Proof.
  intros Hheader. unfold ValidateLicenseHeader.
  rewrite New_from_start, Hheader. simpl. now split.
Qed.

Variable Options : Type.

(** C10: the report of [Compliance] does not depend on the options
    pointer, [nil] or not. *)
Theorem Compliance_ignores_options (l : License)
  (options options' : option Options) (tree : node) :
  Compliance lib Options l options tree
  = Compliance lib Options l options' tree.
Proof. reflexivity. Qed.
End Run.

(** ** The matcher and files *)

(** For an entry that is not a directory the closure does the same
    whatever the pattern matcher says: the return that would skip a
    matched file sits inside the test for a directory. *)
Lemma matcher_ignored_on_files (lib : Library) (l : License)
  (pm pm' : GitIgnore lib) (value : list byte) (path : string) (info : node)
  (err : option error) (s : state) :
  os.IsDir info = false ->
  walkFn lib l pm value path info err s
  = walkFn lib l pm' value path info err s.
Proof.
  intros Hdir. unfold walkFn. now rewrite !skip_test_file.
Qed.

(** A root that cannot be [lstat]ed: the walk fails and the failure is the
    one error recorded after those of the patterns. *)
Lemma walk_failure_reported (lib : Library) (l : License) (name : string)
  (e : error) :
  Header l <> "" ->
  errors (check (ValidateLicenseHeader lib l (Broken name e)))
  = map Underlying (fst (parse lib (pattern_lines (SkipPaths l))))
    ++ [pkgerrors.Errorf ("Failed to walk directory: " ++ Error e)%string].
Proof.
  intros Hheader. apply String.eqb_neq in Hheader.
  unfold ValidateLicenseHeader. rewrite New_from_start, Hheader.
  reflexivity.
Qed.

(** ** The check on the sample trees *)

(** The scenario of the specification: one error, for [b.go]; [vendor]
    is listed but nothing below it is looked at. *)
Example scenario_report :
  errors (check (ValidateLicenseHeader sample.literal sample.go_files
                   sample.scenario))
  = [no_license_header "b.go"]
  /\ trace (ValidateLicenseHeader sample.literal sample.go_files
             sample.scenario)
     = [SysLstat "."; SysReadDirNames "."; SysLstat "README";
        SysLstat "a.go"; SysReadFile "a.go"; SysLstat "b.go";
        SysReadFile "b.go"; SysLstat "vendor"; SysReadDirNames "vendor"].
Proof. split; reflexivity. Qed.

(** [foo_test.go] without a header, [_test.go] excluded: no error. *)
Example test_suffix_report :
  errors (check (ValidateLicenseHeader sample.literal sample.skip_tests
                   sample.with_test))
  = [].
Proof. reflexivity. Qed.

(** An unreadable file is reported and the walk goes on; an entry that
    cannot be [lstat]ed stops it, and [zz.go] is never looked at. *)
Example damaged_report :
  errors (check (ValidateLicenseHeader sample.literal sample.go_files
                   sample.damaged))
  = [failed_to_open "x.go"; no_license_header "y.go";
     Fundamental "Failed to walk directory: lstat z: permission denied"].
Proof. reflexivity. Qed.

(** C1: the code does not skip a file that a skip pattern matches.  With
    [b.go] among the skip paths the matcher matches the file [b.go], and
    the file is read and reported all the same. *)
Theorem matched_file_is_still_checked :
  Relative sample.literal
    (snd (parse sample.literal (pattern_lines (SkipPaths sample.skip_b))))
    "b.go" false = true
  /\ errors (check (ValidateLicenseHeader sample.literal sample.skip_b
                      sample.scenario))
     = [no_license_header "b.go"]
  /\ In (SysReadFile "b.go")
        (trace (ValidateLicenseHeader sample.literal sample.skip_b
                  sample.scenario)).
Proof.
  split; [reflexivity|]. split; [reflexivity|].
  vm_compute. do 6 right. now left.
Qed.

(** C2: the code records one error for each include suffix the name ends
    with.  [b.go] ends with both [.go] and [go], does not begin with the
    header, and is reported twice. *)
Theorem two_suffixes_two_errors :
  matching "b.go" (IncludeSuffixes sample.two_suffixes) = 2
  /\ errors (check (ValidateLicenseHeader sample.literal sample.two_suffixes
                      sample.scenario))
     = [no_license_header "b.go"; no_license_header "b.go"].
Proof. split; reflexivity. Qed.

(** C3 as stated fails: with an empty header and a skip pattern the
    parser refuses, the check holds two errors. *)
Lemma empty_header_two_errors :
  Header sample.no_header = ""
  /\ errors (check (ValidateLicenseHeader sample.literal sample.no_header
                      sample.scenario))
     = [Foreign "unexpected carriage return '\r'";
        Fundamental "Header is not defined"].
Proof. split; reflexivity. Qed.


(** ** The theorems at concrete inputs *)

Lemma empty_header_reported_without_walk_witness :
  errors (check (ValidateLicenseHeader sample.literal sample.no_header
                   sample.scenario))
  = map Underlying
      (fst (parse sample.literal
              (pattern_lines (SkipPaths sample.no_header))))
    ++ [pkgerrors.New "Header is not defined"]
  /\ trace (ValidateLicenseHeader sample.literal sample.no_header
             sample.scenario) = [].
Proof.
  apply (empty_header_reported_without_walk sample.literal sample.no_header
           sample.scenario).
  reflexivity.
Defined.

Lemma header_present_no_violation_witness :
  exists s',
    filepath.walk
      (walkFn sample.literal sample.go_files ["vendor/"]
         (list_byte_of_string (Header sample.go_files)))
      "a.go" (File "a.go" true (Some sample.with_header)) start
    = (s', filepath.Nil)
    /\ check s' = check start
    /\ In (SysReadFile "a.go") (trace s').
Proof.
  apply (header_present_no_violation sample.literal sample.go_files
           ["vendor/"] "a.go" "a.go" sample.with_header start).
  - constructor.
  - apply Exists_cons_hd. exists "a". reflexivity.
  - exists (list_byte_of_string ("package a" ++ LF)). reflexivity.
Defined.

Lemma exclude_suffix_wins_witness :
  filepath.walk
    (walkFn sample.literal sample.skip_tests []
       (list_byte_of_string (Header sample.skip_tests)))
    "foo_test.go" (File "foo_test.go" true (Some sample.without_header)) start
  = (start, filepath.Nil).
Proof.
  apply (exclude_suffix_wins sample.literal sample.skip_tests []).
  apply Exists_cons_hd. exists "foo". reflexivity.
Defined.

Lemma matched_directory_is_pruned_witness :
  filepath.walk
    (walkFn sample.literal sample.go_files ["vendor/"]
       (list_byte_of_string (Header sample.go_files)))
    (filepath.Join "." "vendor")
    (Dir "vendor" None [File "c.go" true (Some sample.without_header)]) start
  = (log (SysReadDirNames (filepath.Join "." "vendor")) start,
     filepath.SkipDir)
  /\ filepath.walk_names
       (walkFn sample.literal sample.go_files ["vendor/"]
          (list_byte_of_string (Header sample.go_files)))
       "."
       [Dir "vendor" None [File "c.go" true (Some sample.without_header)];
        File "z.go" true (Some sample.without_header)]
       start
     = filepath.walk_names
         (walkFn sample.literal sample.go_files ["vendor/"]
            (list_byte_of_string (Header sample.go_files)))
         "." [File "z.go" true (Some sample.without_header)]
         (log (SysReadDirNames (filepath.Join "." "vendor"))
            (log (SysLstat (filepath.Join "." "vendor")) start)).
Proof.
  apply (matched_directory_is_pruned sample.literal sample.go_files
           ["vendor/"] (list_byte_of_string (Header sample.go_files))
           "." "vendor" None).
  reflexivity.
Defined.

Lemma unreadable_file_one_error_witness :
  filepath.walk
    (walkFn sample.literal sample.go_files ["vendor/"]
       (list_byte_of_string (Header sample.go_files)))
    (filepath.Join "." "x.go") (File "x.go" true None) start
  = ({| check :=
          {| errors := errors (check start)
                       ++ [failed_to_open (filepath.Join "." "x.go")] |};
        trace := trace start ++ [SysReadFile (filepath.Join "." "x.go")] |},
     filepath.Nil)
  /\ filepath.walk_names
       (walkFn sample.literal sample.go_files ["vendor/"]
          (list_byte_of_string (Header sample.go_files)))
       "."
       [File "x.go" true None; File "y.go" true (Some sample.without_header)]
       start
     = filepath.walk_names
         (walkFn sample.literal sample.go_files ["vendor/"]
            (list_byte_of_string (Header sample.go_files)))
         "." [File "y.go" true (Some sample.without_header)]
         {| check :=
              {| errors := errors (check start)
                           ++ [failed_to_open (filepath.Join "." "x.go")] |};
            trace := trace start
                     ++ [SysLstat (filepath.Join "." "x.go");
                         SysReadFile (filepath.Join "." "x.go")] |}.
Proof.
  apply (unreadable_file_one_error sample.literal sample.go_files
           ["vendor/"] (list_byte_of_string (Header sample.go_files))
           "." "x.go").
  - constructor.
  - apply Exists_cons_hd. exists "x". reflexivity.
Defined.

(** * Further properties of the closure and of the walk *)

Lemma append_empty (s : string) : (s ++ "")%string = s.
Proof.
  induction s as [|c s IH]; simpl; [reflexivity | now rewrite IH].
Qed.

(** Every name ends with the empty suffix. *)
Lemma ends_with_empty (name : string) : ends_with name "".
Proof. exists name. now rewrite append_empty. Qed.

Lemma length_list_byte_of_string (s : string) :
  List.length (list_byte_of_string s) = String.length s.
Proof.
  unfold list_byte_of_string. rewrite length_map.
  induction s as [|c s IH]; simpl; [reflexivity | now rewrite IH].
Qed.

Section MoreEntries.
Variable lib : Library.
Variable l : License.
Variable patternmatcher : GitIgnore lib.
Variable value : list byte.

Lemma check_includes_no_match (path : string) (info : node)
  (suffixes : list string) (s : state) :
  existsb (fun suffix => strings.HasSuffix (os.Name info) suffix) suffixes
  = false ->
  check_includes value path info suffixes s = s.
Proof.
  induction suffixes as [|suffix rest IH]; simpl; [reflexivity|].
  intros H. apply orb_false_iff in H as [Hhead Hrest].
  rewrite Hhead. now apply IH.
Qed.

(** An entry that is neither a directory nor a regular file (a symbolic
    link, a device, a socket) is neither read nor reported, whatever its
    name and whatever the suffix lists. *)
Theorem irregular_file_untouched (path name : string)
  (data : option (list byte)) (s : state) :
  filepath.walk (walkFn lib l patternmatcher value)
    path (File name false data) s = (s, filepath.Nil).
Proof.
  rewrite walk_File. unfold walkFn.
  now rewrite skip_test_file by reflexivity.
Qed.

(** A regular file whose name ends with none of the include suffixes is
    neither read nor reported, whatever it contains. *)
Theorem unselected_file_untouched (path name : string)
  (data : option (list byte)) (s : state) :
  Forall (fun suffix => ~ ends_with name suffix) (IncludeSuffixes l) ->
  filepath.walk (walkFn lib l patternmatcher value)
    path (File name true data) s = (s, filepath.Nil).
Proof.
  intros Hincl. apply not_excluded_spec in Hincl.
  rewrite walk_File. unfold walkFn.
  rewrite skip_test_file by reflexivity. simpl.
  destruct (existsb _ (ExcludeSuffixes l)); [reflexivity|].
  now rewrite check_includes_no_match.
Qed.

(** An empty string among the exclude suffixes excludes every file: no
    file is read or reported. *)
Theorem empty_exclude_suffix_excludes_all (path name : string)
  (regular : bool) (data : option (list byte)) (s : state) :
  In "" (ExcludeSuffixes l) ->
  filepath.walk (walkFn lib l patternmatcher value)
    path (File name regular data) s = (s, filepath.Nil).
Proof.
  intros Hin.
  assert (Hexcl : existsb (fun suffix => strings.HasSuffix name suffix)
                    (ExcludeSuffixes l) = true).
  { apply excluded_spec, Exists_exists. exists "".
    split; [exact Hin | apply ends_with_empty]. }
  rewrite walk_File. unfold walkFn.
  rewrite skip_test_file by reflexivity. simpl.
  rewrite Hexcl. now destruct regular.
Qed.

(** A directory is listed before the closure sees it, and the closure
    returns the listing error before looking at the matcher: a directory
    that cannot be listed stops the walk, matched or not, and so does a
    name that cannot be [lstat]ed.  The names after it are not visited. *)
Theorem traversal_error_stops_walk (parent name : string) (e : error)
  (below rest : list node) (s : state) :
  filepath.walk_names (walkFn lib l patternmatcher value) parent
    (Dir name (Some e) below :: rest) s
  = (log (SysReadDirNames (filepath.Join parent name))
       (log (SysLstat (filepath.Join parent name)) s),
     filepath.Err e)
  /\ filepath.walk_names (walkFn lib l patternmatcher value) parent
       (Broken name e :: rest) s
     = (log (SysLstat (filepath.Join parent name)) s, filepath.Err e).
Proof.
  split.
  - cbn [filepath.walk_names os.Lstat os.Name]. cbv zeta.
    now rewrite walk_Dir.
  - reflexivity.
Qed.
End MoreEntries.

Section OneViolation.
Variable lib : Library.
Variable l : License.
Variable patternmatcher : GitIgnore lib.

(** A readable regular file that no exclude suffix ends, that exactly one
    include suffix ends, and that is shorter than the header or differs
    from it in its leading bytes is read once and gets exactly one error,
    the missing-header one. *)
Theorem one_suffix_one_violation (path name : string) (contents : list byte)
  (s : state) :
  Forall (fun suffix => ~ ends_with name suffix) (ExcludeSuffixes l) ->
  matching name (IncludeSuffixes l) = 1 ->
  List.length contents < String.length (Header l)
  \/ firstn (String.length (Header l)) contents
     <> list_byte_of_string (Header l) ->
  filepath.walk
    (walkFn lib l patternmatcher (list_byte_of_string (Header l)))
    path (File name true (Some contents)) s
  = ({| check := {| errors := errors (check s) ++ [no_license_header path] |};
        trace := trace s ++ [SysReadFile path] |},
     filepath.Nil).
Proof.
  intros Hexcl Hone Hdiff.
  assert (Hprefix : bytes.HasPrefix contents (list_byte_of_string (Header l))
                    = false).
  { apply HasPrefix_false. destruct Hdiff as [Hshort | Hfirst].
    - apply shorter_not_begins_with.
      now rewrite length_list_byte_of_string.
    - intros [rest Heq]. apply Hfirst. rewrite Heq.
      rewrite <- length_list_byte_of_string.
      rewrite firstn_app, firstn_all, Nat.sub_diag. simpl. apply app_nil_r. }
  rewrite walk_File, walkFn_applicable by exact Hexcl.
  rewrite check_includes_violating by exact Hprefix.
  now rewrite Hone.
Qed.
End OneViolation.


(** ** The report on a tree without failures *)

Section Healthy.
Variable lib : Library.
Variable l : License.
Variable patternmatcher : GitIgnore lib.
Variable value : list byte.

(** What the include loop adds to the check does not depend on what the
    check already holds. *)
Lemma check_includes_frame (path : string) (info : node)
  (suffixes : list string) (s : state) :
  errors (check (check_includes value path info suffixes s))
  = errors (check s)
    ++ errors (check (check_includes value path info suffixes start)).
Proof.
  revert s. induction suffixes as [|suffix rest IH]; intros s; simpl.
  - now rewrite app_nil_r.
  - destruct (strings.HasSuffix (os.Name info) suffix); [|apply IH].
    destruct (match info with File _ _ data => data | _ => None end)
      as [contents|].
    + destruct (bytes.HasPrefix contents value).
      * rewrite IH. symmetry. rewrite IH. reflexivity.
      * rewrite IH. symmetry. rewrite IH. simpl. now rewrite <- app_assoc.
    + reflexivity.
Qed.

Lemma walkFn_frame (path : string) (info : node) (s : state) :
  errors (check (fst (walkFn lib l patternmatcher value path info None s)))
  = errors (check s) ++ recorded lib l patternmatcher value (path, info).
Proof.
  unfold recorded, walkFn. simpl fst. simpl snd.
  destruct (skip_test lib patternmatcher path info);
    [simpl; now rewrite app_nil_r|].
  destruct (os.IsRegular info); [|simpl; now rewrite app_nil_r].
  destruct (existsb _ (ExcludeSuffixes l)); [simpl; now rewrite app_nil_r|].
  simpl. apply check_includes_frame.
Qed.

(** Without an error the closure returns [nil], or [SkipDir] for a
    directory. *)
Lemma walkFn_result (path : string) (info : node) (s : state) :
  snd (walkFn lib l patternmatcher value path info None s) = filepath.Nil
  \/ snd (walkFn lib l patternmatcher value path info None s)
     = filepath.SkipDir
     /\ os.IsDir info = true.
Proof.
  unfold walkFn, skip_test.
  destruct (Relative lib patternmatcher path (os.IsDir info)).
  - destruct (os.IsDir info) eqn:Hdir.
    + right. now split.
    + left. destruct (os.IsRegular info); [|reflexivity].
      now destruct (existsb _ (ExcludeSuffixes l)).
  - left. destruct (os.IsRegular info); [|reflexivity].
    now destruct (existsb _ (ExcludeSuffixes l)).
Qed.

Lemma walk_healthy (n : node) :
  healthy n = true ->
  forall path s,
    errors (check (fst (filepath.walk (walkFn lib l patternmatcher value)
                          path n s)))
    = errors (check s)
      ++ flat_map (recorded lib l patternmatcher value)
           (reached lib patternmatcher path n)
    /\ (snd (filepath.walk (walkFn lib l patternmatcher value) path n s)
        = filepath.Nil
        \/ snd (filepath.walk (walkFn lib l patternmatcher value) path n s)
           = filepath.SkipDir
           /\ os.IsDir n = true).
Proof.
  induction n as [name regular data | name listing entries IH | name e]
    using node_induction; intros Hhealthy path s.
  - rewrite walk_File. split.
    + rewrite walkFn_frame. simpl. now rewrite app_nil_r.
    + apply walkFn_result.
  - destruct listing as [e|]; [discriminate|]. simpl in Hhealthy.
    rewrite walk_Dir. cbv zeta. unfold walkFn at 1 3 5. unfold skip_test.
    cbn [os.IsDir os.IsRegular reached].
    destruct (Relative lib patternmatcher path true).
    + simpl. rewrite app_nil_r. split; [reflexivity | right; now split].
    + change (errors (check s))
        with (errors (check (log (SysReadDirNames path) s))).
      generalize (log (SysReadDirNames path) s) as s1. clear s.
      induction IH as [|m rest Hm _ IHrest]; intros s1.
      * simpl. rewrite app_nil_r. split; [reflexivity | now left].
      * simpl in Hhealthy. apply andb_true_iff in Hhealthy as [Hm' Hrest'].
        cbn [filepath.walk_names flat_map]. cbv zeta.
        assert (Hlstat : os.Lstat m = None) by (destruct m; [reflexivity | reflexivity | discriminate]).
        rewrite Hlstat.
        destruct (Hm Hm' (filepath.Join path (os.Name m))
                    (log (SysLstat (filepath.Join path (os.Name m))) s1))
          as [Herr Hres].
        destruct (filepath.walk (walkFn lib l patternmatcher value)
                    (filepath.Join path (os.Name m)) m
                    (log (SysLstat (filepath.Join path (os.Name m))) s1))
          as [s2 r].
        simpl in Herr, Hres.
        assert (Hgo : errors (check (fst (filepath.walk_names
                                 (walkFn lib l patternmatcher value)
                                 path rest s2)))
                      = errors (check s1)
                        ++ flat_map (recorded lib l patternmatcher value)
                             (reached lib patternmatcher
                                (filepath.Join path (os.Name m)) m
                              ++ flat_map
                                   (fun m0 =>
                                      reached lib patternmatcher
                                        (filepath.Join path (os.Name m0)) m0)
                                   rest)
                      /\ (snd (filepath.walk_names
                                 (walkFn lib l patternmatcher value)
                                 path rest s2) = filepath.Nil
                          \/ snd (filepath.walk_names
                                    (walkFn lib l patternmatcher value)
                                    path rest s2) = filepath.SkipDir
                             /\ true = true)).
        { destruct (IHrest Hrest' s2) as [Herr2 Hres2].
          split; [|exact Hres2].
          rewrite Herr2, Herr, flat_map_app. now rewrite app_assoc. }
        destruct Hres as [-> | [-> Hdir]]; [exact Hgo|].
        rewrite Hdir. exact Hgo.
  - discriminate.
Qed.
End Healthy.

(** The run on a tree where nothing fails. *)
Lemma healthy_run (lib : Library) (l : License) (tree : node) :
  healthy tree = true ->
  Header l <> "" ->
  errors (check (ValidateLicenseHeader lib l tree))
  = map Underlying (fst (parse lib (pattern_lines (SkipPaths l))))
    ++ flat_map
         (recorded lib l (snd (parse lib (pattern_lines (SkipPaths l))))
            (list_byte_of_string (Header l)))
         (reached lib (snd (parse lib (pattern_lines (SkipPaths l))))
            "." tree).
Proof.
  intros Hhealthy Hheader. apply String.eqb_neq in Hheader.
  unfold ValidateLicenseHeader. rewrite New_from_start, Hheader.
  unfold filepath.Walk. cbv zeta.
  assert (Hlstat : os.Lstat tree = None)
    by (destruct tree; [reflexivity | reflexivity | discriminate]).
  rewrite Hlstat.
  set (s0 := log (SysLstat ".") _).
  destruct (walk_healthy lib l (snd (parse lib (pattern_lines (SkipPaths l))))
              (list_byte_of_string (Header l)) tree Hhealthy "." s0)
    as [Herr Hres].
  destruct (filepath.walk _ "." tree s0) as [s1 r].
  simpl in Herr, Hres.
  destruct Hres as [-> | [-> _]]; exact Herr.
Qed.


(** On a tree where nothing fails, and with a header configured, the
    check holds the errors of the skip patterns followed, in the order of
    the walk, by what the closure records for each entry that is not a
    directory and does not lie below a matched directory; the walk does
    not fail. *)
Theorem healthy_report (lib : Library) (l : License) (tree : node) :
  healthy tree = true ->
  Header l <> "" ->
  errors (check (ValidateLicenseHeader lib l tree))
  = map Underlying (fst (parse lib (pattern_lines (SkipPaths l))))
    ++ flat_map
         (recorded lib l (snd (parse lib (pattern_lines (SkipPaths l))))
            (list_byte_of_string (Header l)))
         (reached lib (snd (parse lib (pattern_lines (SkipPaths l))))
            "." tree).
Proof. apply healthy_run. Qed.

Section Completeness.
Variable lib : Library.
Variable l : License.

Lemma recorded_selected (pm : GitIgnore lib) (p name : string)
  (data : option (list byte)) :
  selected l name ->
  match data with
  | None =>
      In (failed_to_open p)
        (recorded lib l pm (list_byte_of_string (Header l))
           (p, File name true data))
  | Some contents =>
      ~ begins_with contents (list_byte_of_string (Header l)) ->
      In (no_license_header p)
        (recorded lib l pm (list_byte_of_string (Header l))
           (p, File name true data))
  end.
Proof.
  intros [Hexcl Hincl]. unfold recorded. cbn [fst snd].
  rewrite walkFn_applicable by exact Hexcl. cbn [fst].
  destruct data as [contents|].
  - intros Hprefix. apply HasPrefix_false in Hprefix.
    rewrite check_includes_violating by exact Hprefix. simpl.
    pose proof (matching_positive name (IncludeSuffixes l) Hincl) as Hpos.
    destruct (matching name (IncludeSuffixes l)); [lia | now left].
  - rewrite check_includes_unreadable.
    apply excluded_spec in Hincl. rewrite Hincl. now left.
Qed.

Lemma recorded_compliant (pm : GitIgnore lib) (p name : string)
  (regular : bool) (data : option (list byte)) :
  (regular = true -> selected l name ->
   exists contents,
     data = Some contents
     /\ begins_with contents (list_byte_of_string (Header l))) ->
  recorded lib l pm (list_byte_of_string (Header l))
    (p, File name regular data) = [].
Proof.
  intros Hok. unfold recorded, walkFn. cbn [fst snd].
  rewrite skip_test_file by reflexivity. cbn [os.IsRegular os.Name].
  destruct regular; [|reflexivity].
  destruct (existsb _ (ExcludeSuffixes l)) eqn:Hexcl; [reflexivity|].
  cbn [fst].
  destruct (existsb (fun suffix => strings.HasSuffix name suffix)
              (IncludeSuffixes l)) eqn:Hincl.
  - destruct Hok as [contents [-> Hprefix]]; [reflexivity | |].
    + split; [now apply not_excluded_spec | now apply excluded_spec].
    + apply HasPrefix_spec in Hprefix.
      now rewrite check_includes_compliant by exact Hprefix.
  - now rewrite check_includes_no_match.
Qed.

(** No false negative on a tree where nothing fails: a selected regular
    file that the walk reaches is reported when it cannot be read, and
    when it can be read but does not begin with the header. *)
Theorem deserving_file_is_reported (tree : node) (p name : string)
  (data : option (list byte)) :
  healthy tree = true ->
  Header l <> "" ->
  In (p, File name true data)
     (reached lib (snd (parse lib (pattern_lines (SkipPaths l)))) "." tree) ->
  selected l name ->
  match data with
  | None =>
      In (failed_to_open p)
         (errors (check (ValidateLicenseHeader lib l tree)))
  | Some contents =>
      ~ begins_with contents (list_byte_of_string (Header l)) ->
      In (no_license_header p)
         (errors (check (ValidateLicenseHeader lib l tree)))
  end.
Proof.
  intros Hhealthy Hheader Hreached Hsel.
  rewrite (healthy_run lib l tree Hhealthy Hheader).
  pose proof (recorded_selected
                (snd (parse lib (pattern_lines (SkipPaths l))))
                p name data Hsel) as Hrec.
  destruct data as [contents|].
  - intros Hprefix. apply in_or_app. right. apply in_flat_map.
    exists (p, File name true (Some contents)). split; [exact Hreached|].
    now apply Hrec.
  - apply in_or_app. right. apply in_flat_map.
    exists (p, File name true None). now split.
Qed.

End Completeness.

(** ** What the check touches and what it reports, on any tree *)

Lemma nodes_head (path : string) (n : node) : In (path, n) (nodes path n).
Proof. destruct n; now left. Qed.

Section Justified.
Variable lib : Library.
Variable l : License.
Variable patternmatcher : GitIgnore lib.
Variable value : list byte.

Lemma sound_refl (entries : list (string * node)) (s : state) :
  sound l value entries s s.
Proof.
  exists [], []. rewrite !app_nil_r. repeat split; constructor.
Qed.

Lemma sound_trans (entries : list (string * node)) (s1 s2 s3 : state) :
  sound l value entries s1 s2 -> sound l value entries s2 s3 ->
  sound l value entries s1 s3.
Proof.
  intros [es [cs [He [Hc [Hes Hcs]]]]] [es' [cs' [He' [Hc' [Hes' Hcs']]]]].
  exists (es ++ es'), (cs ++ cs'). repeat split.
  - now rewrite He', He, app_assoc.
  - now rewrite Hc', Hc, app_assoc.
  - apply Forall_app. now split.
  - apply Forall_app. now split.
Qed.

Lemma sound_weaken (entries entries' : list (string * node))
  (s s' : state) :
  incl entries entries' ->
  sound l value entries s s' -> sound l value entries' s s'.
Proof.
  intros Hincl [es [cs [He [Hc [Hes Hcs]]]]].
  exists es, cs. repeat split; try assumption.
  - eapply Forall_impl; [|exact Hes].
    intros e [p [name [data [Hin H]]]].
    exists p, name, data. split; [now apply Hincl | exact H].
  - eapply Forall_impl; [|exact Hcs].
    intros [p|p|p]; simpl.
    + intros [n Hin]. exists n. now apply Hincl.
    + intros [name [listing [below Hin]]].
      exists name, listing, below. now apply Hincl.
    + intros [name [data [Hin H]]].
      exists name, data. split; [now apply Hincl | exact H].
Qed.

Lemma sound_log (entries : list (string * node)) (c : syscall) (s : state) :
  justified_call l entries c -> sound l value entries s (log c s).
Proof.
  intros Hc. exists [], [c]. simpl. rewrite app_nil_r.
  repeat split; constructor; [exact Hc | constructor].
Qed.

Lemma sound_append_error (entries : list (string * node)) (e : error)
  (s : state) :
  justified_error l value entries e ->
  sound l value entries s (append_error e s).
Proof.
  intros He. exists [e], []. simpl. rewrite app_nil_r.
  repeat split; constructor; [exact He | constructor].
Qed.

Lemma check_includes_sound (path name : string) (data : option (list byte))
  (suffixes : list string) :
  Forall (fun suffix => ~ ends_with name suffix) (ExcludeSuffixes l) ->
  incl suffixes (IncludeSuffixes l) ->
  forall s,
    sound l value [(path, File name true data)] s
      (check_includes value path (File name true data) suffixes s).
Proof.
  intros Hexcl. induction suffixes as [|suffix rest IH]; intros Hincl s.
  - apply sound_refl.
  - assert (Hrest : incl rest (IncludeSuffixes l))
      by (intros x Hx; apply Hincl; now right).
    cbn [check_includes os.Name].
    destruct (strings.HasSuffix name suffix) eqn:Hsuffix; [|now apply IH].
    assert (Hsel : selected l name).
    { split; [exact Hexcl|]. apply Exists_exists. exists suffix.
      split; [apply Hincl; now left | now apply HasSuffix_spec]. }
    assert (Hread : forall s0,
      sound l value [(path, File name true data)] s0
        (log (SysReadFile path) s0)).
    { intros s0. apply sound_log. exists name, data.
      split; [now left | exact Hsel]. }
    unfold ioutil.ReadFile. destruct data as [contents|].
    + destruct (bytes.HasPrefix contents value) eqn:Hprefix.
      * eapply sound_trans; [apply Hread | now apply IH].
      * eapply sound_trans; [apply Hread|].
        eapply sound_trans; [|now apply IH].
        apply sound_append_error. exists path, name, (Some contents).
        split; [now left|]. split; [exact Hsel|].
        split; [now apply HasPrefix_false | reflexivity].
    + eapply sound_trans; [apply Hread|].
      apply sound_append_error. exists path, name, None.
      split; [now left|]. now split.
Qed.

Lemma walkFn_sound (path : string) (info : node) (err : option error)
  (s : state) :
  sound l value [(path, info)] s
    (fst (walkFn lib l patternmatcher value path info err s)).
Proof.
  unfold walkFn. destruct err as [e|]; [apply sound_refl|].
  destruct (skip_test lib patternmatcher path info); [apply sound_refl|].
  destruct info as [name regular data | name listing entries | name e];
    simpl; try apply sound_refl.
  destruct regular; [|apply sound_refl].
  destruct (existsb _ (ExcludeSuffixes l)) eqn:Hexcl; simpl;
    [apply sound_refl|].
  apply check_includes_sound; [now apply not_excluded_spec | apply incl_refl].
Qed.

Lemma walk_sound (n : node) :
  forall path s,
    sound l value (nodes path n) s
      (fst (filepath.walk (walkFn lib l patternmatcher value) path n s)).
Proof.
  induction n as [name regular data | name listing entries IH | name e]
    using node_induction; intros path s.
  - rewrite walk_File. apply walkFn_sound.
  - rewrite walk_Dir. cbv zeta.
    pose proof (walkFn_sound path (Dir name listing entries) listing
                  (log (SysReadDirNames path) s)) as Hfn.
    destruct (walkFn lib l patternmatcher value path
                (Dir name listing entries) listing
                (log (SysReadDirNames path) s)) as [s1 err1].
    simpl in Hfn.
    assert (Hs1 : sound l value (nodes path (Dir name listing entries)) s s1).
    { eapply sound_trans.
      - apply (sound_log _ (SysReadDirNames path)).
        exists name, listing, entries. apply nodes_head.
      - eapply sound_weaken; [|exact Hfn].
        intros x [<- | []]. apply nodes_head. }
    destruct listing as [e|]; [exact Hs1|].
    destruct err1; try exact Hs1.
    eapply sound_trans; [exact Hs1|]. clear Hs1 Hfn s.
    cbn [nodes].
    eapply sound_weaken; [apply incl_tl, incl_refl|].
    revert s1. induction IH as [|m rest Hm _ IHrest]; intros s1.
    + apply sound_refl.
    + cbn [filepath.walk_names flat_map]. cbv zeta.
      set (filename := filepath.Join path (os.Name m)).
      set (below := flat_map
                      (fun m0 => nodes (filepath.Join path (os.Name m0)) m0)
                      rest).
      assert (Hstat : forall s0,
        sound l value (nodes filename m ++ below) s0
          (log (SysLstat filename) s0)).
      { intros s0. apply sound_log. exists m.
        apply in_or_app. left. apply nodes_head. }
      assert (Hstep : forall s2,
        sound l value (nodes filename m) (log (SysLstat filename) s1) s2 ->
        sound l value (nodes filename m ++ below) s1
          (fst (filepath.walk_names (walkFn lib l patternmatcher value)
                  path rest s2))).
      { intros s2 H12. eapply sound_trans; [apply Hstat|].
        eapply sound_trans.
        - eapply sound_weaken; [|exact H12]. apply incl_appl, incl_refl.
        - eapply sound_weaken; [|apply IHrest]. apply incl_appr, incl_refl. }
      assert (Hstop : forall s2,
        sound l value (nodes filename m) (log (SysLstat filename) s1) s2 ->
        sound l value (nodes filename m ++ below) s1 s2).
      { intros s2 H12. eapply sound_trans; [apply Hstat|].
        eapply sound_weaken; [|exact H12]. apply incl_appl, incl_refl. }
      destruct (os.Lstat m) as [e|] eqn:Hlstat.
      * pose proof (walkFn_sound filename m (Some e)
                      (log (SysLstat filename) s1)) as Hfn.
        destruct (walkFn lib l patternmatcher value filename m (Some e)
                    (log (SysLstat filename) s1)) as [s2 r].
        simpl in Hfn.
        assert (H12 : sound l value (nodes filename m)
                        (log (SysLstat filename) s1) s2).
        { eapply sound_weaken; [|exact Hfn].
          intros x [<- | []]. apply nodes_head. }
        destruct r; [apply Hstep | apply Hstep | apply Hstop]; exact H12.
      * pose proof (Hm filename (log (SysLstat filename) s1)) as Hw.
        destruct (filepath.walk (walkFn lib l patternmatcher value)
                    filename m (log (SysLstat filename) s1)) as [s2 r].
        simpl in Hw.
        destruct r; [apply Hstep | | apply Hstop]; try exact Hw.
        destruct (os.IsDir m); [apply Hstep | apply Hstop]; exact Hw.
  - apply (walkFn_sound path (Broken name e) None s).
Qed.

Lemma Walk_sound (tree : node) (s : state) :
  sound l value (nodes "." tree) s
    (fst (filepath.Walk "." tree (walkFn lib l patternmatcher value) s)).
Proof.
  unfold filepath.Walk. cbv zeta.
  assert (Hstat : sound l value (nodes "." tree) s (log (SysLstat ".") s)).
  { apply sound_log. exists tree. apply nodes_head. }
  destruct (os.Lstat tree) as [e|].
  - pose proof (walkFn_sound "." tree (Some e) (log (SysLstat ".") s))
      as Hfn.
    destruct (walkFn lib l patternmatcher value "." tree (Some e)
                (log (SysLstat ".") s)) as [s1 r].
    simpl in Hfn.
    assert (H : sound l value (nodes "." tree) s s1).
    { eapply sound_trans; [exact Hstat|].
      eapply sound_weaken; [|exact Hfn].
      intros x [<- | []]. apply nodes_head. }
    now destruct r.
  - pose proof (walk_sound tree "." (log (SysLstat ".") s)) as Hw.
    destruct (filepath.walk (walkFn lib l patternmatcher value) "." tree
                (log (SysLstat ".") s)) as [s1 r].
    simpl in Hw.
    assert (H : sound l value (nodes "." tree) s s1).
    { eapply sound_trans; [exact Hstat | exact Hw]. }
    now destruct r.
Qed.
End Justified.

Section RunJustified.
Variable lib : Library.

(** The whole run, in one statement: what the check holds beyond the
    errors of the skip patterns, and what was asked of the file system. *)
Lemma run_sound (l : License) (tree : node) :
  exists es w,
    errors (check (ValidateLicenseHeader lib l tree))
    = map Underlying (fst (parse lib (pattern_lines (SkipPaths l))))
      ++ es ++ w
    /\ Forall (justified_error l (list_byte_of_string (Header l))
                 (nodes "." tree)) es
    /\ Forall (justified_call l (nodes "." tree))
         (trace (ValidateLicenseHeader lib l tree))
    /\ (Header l <> "" ->
        w = []
        \/ exists err,
             w = [pkgerrors.Errorf
                    ("Failed to walk directory: " ++ Error err)%string]).
Proof.
  unfold ValidateLicenseHeader. rewrite New_from_start.
  set (s0 := {| check := _; trace := [] |}).
  destruct (Header l =? "")%string eqn:Hheader.
  - apply String.eqb_eq in Hheader.
    exists [], [pkgerrors.New "Header is not defined"].
    split; [reflexivity|]. split; [constructor|]. split; [constructor|].
    intros Hne. now elim Hne.
  - pose proof (Walk_sound lib l
                  (snd (parse lib (pattern_lines (SkipPaths l))))
                  (list_byte_of_string (Header l)) tree s0) as Hwalk.
    destruct (filepath.Walk "." tree _ s0) as [s' err].
    destruct Hwalk as [es [cs [He [Hc [Hes Hcs]]]]]. simpl in He, Hc.
    destruct err as [werr|].
    + exists es, [pkgerrors.Errorf
                    ("Failed to walk directory: " ++ Error werr)%string].
      simpl errors. simpl trace. rewrite He, Hc, <- app_assoc.
      split; [reflexivity|]. split; [exact Hes|]. split; [exact Hcs|].
      intros _. right. now exists werr.
    + exists es, []. rewrite He, Hc, app_nil_r.
      split; [reflexivity|]. split; [exact Hes|]. split; [exact Hcs|].
      intros _. now left.
Qed.

(** With a header configured the errors of the check come in three
    parts, in this order: the errors of the skip patterns; errors about
    selected regular files of the tree, each one deserved (the file cannot
    be read, or it does not begin with the header); and at most one
    error for a walk that failed, which is then the last one. *)
Theorem report_structure (l : License) (tree : node) :
  Header l <> "" ->
  exists es w,
    errors (check (ValidateLicenseHeader lib l tree))
    = map Underlying (fst (parse lib (pattern_lines (SkipPaths l))))
      ++ es ++ w
    /\ Forall (justified_error l (list_byte_of_string (Header l))
                 (nodes "." tree)) es
    /\ (w = []
        \/ exists err,
             w = [pkgerrors.Errorf
                    ("Failed to walk directory: " ++ Error err)%string]).
Proof.
  intros Hheader.
  destruct (run_sound l tree) as [es [w [Heq [Hes [_ Hw]]]]].
  exists es, w. split; [exact Heq|]. split; [exact Hes | now apply Hw].
Qed.

(** Every call the check makes to the file system is on an entry of the
    tree under the working directory: it [lstat]s entries, lists
    directories, and reads only regular files whose name passes the two
    suffix lists. *)
Theorem calls_justified (l : License) (tree : node) :
  Forall (justified_call l (nodes "." tree))
    (trace (ValidateLicenseHeader lib l tree)).
Proof.
  destruct (run_sound l tree) as [es [w [_ [_ [Hcalls _]]]]]. exact Hcalls.
Qed.

(** With no include suffix at all and a header configured, no file is
    read and no file is reported: beyond the errors of the skip patterns
    the check holds at most the error of a walk that failed. *)
Theorem no_include_suffixes_checks_nothing (l : License) (tree : node) :
  IncludeSuffixes l = [] ->
  Header l <> "" ->
  (forall p, ~ In (SysReadFile p) (trace (ValidateLicenseHeader lib l tree)))
  /\ exists w,
       errors (check (ValidateLicenseHeader lib l tree))
       = map Underlying (fst (parse lib (pattern_lines (SkipPaths l)))) ++ w
       /\ (w = []
           \/ exists err,
                w = [pkgerrors.Errorf
                       ("Failed to walk directory: " ++ Error err)%string]).
Proof.
  intros Hnone Hheader.
  destruct (run_sound l tree) as [es [w [Heq [Hes [Hcalls Hw]]]]]. split.
  - intros p Hin. rewrite Forall_forall in Hcalls. apply Hcalls in Hin.
    destruct Hin as [name [data [_ [_ Hincl]]]].
    rewrite Hnone in Hincl. inversion Hincl.
  - exists w. split; [|now apply Hw].
    destruct es as [|e es]; [exact Heq|].
    inversion Hes as [|? ? [p [name [data [_ [[_ Hincl] _]]]]] _].
    rewrite Hnone in Hincl. inversion Hincl.
Qed.

(** When the matcher matches the root itself, the walk lists the root and
    stops there without an error: the check holds the errors of the skip
    patterns and nothing else. *)
Theorem matched_root_checks_nothing (l : License) (name : string)
  (entries : list node) :
  Relative lib (snd (parse lib (pattern_lines (SkipPaths l)))) "." true
  = true ->
  Header l <> "" ->
  ValidateLicenseHeader lib l (Dir name None entries)
  = {| check :=
         {| errors :=
              map Underlying (fst (parse lib (pattern_lines (SkipPaths l))))
         |};
       trace := [SysLstat "."; SysReadDirNames "."] |}.
Proof.
  intros Hrel Hheader. apply String.eqb_neq in Hheader.
  unfold ValidateLicenseHeader. rewrite New_from_start, Hheader.
  unfold filepath.Walk. cbv zeta. cbn [os.Lstat].
  now rewrite walk_matched_dir by exact Hrel.
Qed.

(** With an empty header and skip patterns the parser accepts, the
    summary of the check counts the missing header as one file without
    license header. *)
Theorem empty_header_message (l : License) (tree : node) :
  Header l = "" ->
  fst (parse lib (pattern_lines (SkipPaths l))) = [] ->
  HeaderCheck_Message (check (ValidateLicenseHeader lib l tree))
  = "Found 1 files without license header".
Proof.
  intros Hheader Hclean. unfold ValidateLicenseHeader.
  rewrite New_from_start, Hheader, Hclean. reflexivity.
Qed.
End RunJustified.

(** The summary says that all files are valid exactly when the check
    holds no error. *)
Theorem Message_all_valid_iff (c : HeaderCheck) :
  HeaderCheck_Message c = "All files have a valid license header"
  <-> errors c = [].
Proof.
  unfold HeaderCheck_Message. destruct (errors c) as [|e es]; simpl.
  - split; reflexivity.
  - split; discriminate.
Qed.

(** ** The further properties at concrete inputs *)

Lemma unselected_file_untouched_witness :
  filepath.walk
    (walkFn sample.literal sample.go_files ["vendor/"]
       (list_byte_of_string (Header sample.go_files)))
    "README" (File "README" true (Some sample.without_header)) start
  = (start, filepath.Nil).
Proof.
  apply (unselected_file_untouched sample.literal sample.go_files ["vendor/"]).
  constructor; [apply HasSuffix_false; reflexivity | constructor].
Defined.

Lemma empty_exclude_suffix_excludes_all_witness :
  filepath.walk
    (walkFn sample.literal
       {| SkipPaths := []; IncludeSuffixes := [".go"];
          ExcludeSuffixes := [""]; Header := sample.copyright |}
       [] (list_byte_of_string sample.copyright))
    "b.go" (File "b.go" true (Some sample.without_header)) start
  = (start, filepath.Nil).
Proof.
  apply (empty_exclude_suffix_excludes_all sample.literal
           {| SkipPaths := []; IncludeSuffixes := [".go"];
              ExcludeSuffixes := [""]; Header := sample.copyright |} []).
  simpl. now left.
Defined.

Lemma one_suffix_one_violation_witness :
  filepath.walk
    (walkFn sample.literal sample.go_files ["vendor/"]
       (list_byte_of_string (Header sample.go_files)))
    "b.go" (File "b.go" true (Some sample.without_header)) start
  = ({| check :=
          {| errors := errors (check start) ++ [no_license_header "b.go"] |};
        trace := trace start ++ [SysReadFile "b.go"] |},
     filepath.Nil).
Proof.
  apply (one_suffix_one_violation sample.literal sample.go_files ["vendor/"]).
  - constructor.
  - reflexivity.
  - left. vm_compute. lia.
Defined.

Lemma healthy_report_witness :
  errors (check (ValidateLicenseHeader sample.literal sample.go_files
                   sample.scenario))
  = map Underlying
      (fst (parse sample.literal
              (pattern_lines (SkipPaths sample.go_files))))
    ++ flat_map
         (recorded sample.literal sample.go_files
            (snd (parse sample.literal
                    (pattern_lines (SkipPaths sample.go_files))))
            (list_byte_of_string (Header sample.go_files)))
         (reached sample.literal
            (snd (parse sample.literal
                    (pattern_lines (SkipPaths sample.go_files))))
            "." sample.scenario).
Proof.
  apply (healthy_report sample.literal sample.go_files sample.scenario).
  - reflexivity.
  - discriminate.
Defined.

Lemma deserving_file_is_reported_witness :
  In (no_license_header "b.go")
     (errors (check (ValidateLicenseHeader sample.literal sample.go_files
                       sample.scenario))).
Proof.
  refine (deserving_file_is_reported sample.literal sample.go_files
            sample.scenario "b.go" "b.go" (Some sample.without_header)
            _ _ _ _ _).
  - reflexivity.
  - discriminate.
  - vm_compute. do 2 right. now left.
  - split; [constructor|]. apply Exists_cons_hd. exists "b". reflexivity.
  - apply HasPrefix_false. reflexivity.
Defined.

Lemma report_structure_witness :
  exists es w,
    errors (check (ValidateLicenseHeader sample.literal sample.go_files
                     sample.damaged))
    = map Underlying
        (fst (parse sample.literal
                (pattern_lines (SkipPaths sample.go_files))))
      ++ es ++ w
    /\ Forall (justified_error sample.go_files
                 (list_byte_of_string (Header sample.go_files))
                 (nodes "." sample.damaged)) es
    /\ (w = []
        \/ exists err,
             w = [pkgerrors.Errorf
                    ("Failed to walk directory: " ++ Error err)%string]).
Proof.
  apply (report_structure sample.literal sample.go_files sample.damaged).
  discriminate.
Defined.

Lemma no_include_suffixes_checks_nothing_witness :
  (forall p,
      ~ In (SysReadFile p)
          (trace (ValidateLicenseHeader sample.literal
                    {| SkipPaths := ["vendor/"]; IncludeSuffixes := [];
                       ExcludeSuffixes := []; Header := sample.copyright |}
                    sample.scenario)))
  /\ exists w,
       errors (check (ValidateLicenseHeader sample.literal
                        {| SkipPaths := ["vendor/"]; IncludeSuffixes := [];
                           ExcludeSuffixes := [];
                           Header := sample.copyright |}
                        sample.scenario))
       = map Underlying
           (fst (parse sample.literal (pattern_lines ["vendor/"]))) ++ w
       /\ (w = []
           \/ exists err,
                w = [pkgerrors.Errorf
                       ("Failed to walk directory: " ++ Error err)%string]).
Proof.
  apply (no_include_suffixes_checks_nothing sample.literal
           {| SkipPaths := ["vendor/"]; IncludeSuffixes := [];
              ExcludeSuffixes := []; Header := sample.copyright |}
           sample.scenario).
  - reflexivity.
  - discriminate.
Defined.

Lemma matched_root_checks_nothing_witness :
  ValidateLicenseHeader sample.literal
    {| SkipPaths := ["."]; IncludeSuffixes := [".go"];
       ExcludeSuffixes := []; Header := sample.copyright |}
    (Dir "." None [File "b.go" true (Some sample.without_header)])
  = {| check :=
         {| errors :=
              map Underlying
                (fst (parse sample.literal (pattern_lines ["."]))) |};
       trace := [SysLstat "."; SysReadDirNames "."] |}.
Proof.
  apply (matched_root_checks_nothing sample.literal
           {| SkipPaths := ["."]; IncludeSuffixes := [".go"];
              ExcludeSuffixes := []; Header := sample.copyright |}).
  - reflexivity.
  - discriminate.
Defined.

Lemma empty_header_message_witness :
  HeaderCheck_Message
    (check (ValidateLicenseHeader sample.literal
              {| SkipPaths := ["vendor/"]; IncludeSuffixes := [".go"];
                 ExcludeSuffixes := []; Header := "" |}
              sample.scenario))
  = "Found 1 files without license header".
Proof.
  apply (empty_header_message sample.literal
           {| SkipPaths := ["vendor/"]; IncludeSuffixes := [".go"];
              ExcludeSuffixes := []; Header := "" |}
           sample.scenario).
  - reflexivity.
  - reflexivity.
Defined.

Lemma walk_failure_reported_witness :
  errors (check (ValidateLicenseHeader sample.literal sample.go_files
                   (Broken "." (Foreign "lstat .: no such file or directory"))))
  = map Underlying
      (fst (parse sample.literal
              (pattern_lines (SkipPaths sample.go_files))))
    ++ [pkgerrors.Errorf
          ("Failed to walk directory: "
           ++ Error (Foreign "lstat .: no such file or directory"))%string].
Proof.
  apply (walk_failure_reported sample.literal sample.go_files).
  discriminate.
Defined.

(** * The whole report, on any tree *)


(** [scan] on a directory that can be listed, with its loop named. *)
Lemma scan_Dir (lib : Library) (pm : GitIgnore lib) (path name : string)
  (entries : list node) :
  scan lib pm path (Dir name None entries)
  = if Relative lib pm path true then ([], None)
    else scan_names lib pm path entries.
Proof.
  cbn [scan]. destruct (Relative lib pm path true); [reflexivity|].
  induction entries as [|m rest IH]; [reflexivity|].
  cbn [scan_names].
  destruct (scan lib pm (filepath.Join path (os.Name m)) m) as [seen [e|]];
    [reflexivity|].
  now rewrite IH.
Qed.


Section Scan.
Variable lib : Library.
Variable l : License.
Variable patternmatcher : GitIgnore lib.
Variable value : list byte.

(** The walk of an entry that can be [lstat]ed records what the closure
    records for each entry [scan] sees, in that order, and ends with the
    failure [scan] stops at, if any. *)
Lemma walk_scan (n : node) :
  os.Lstat n = None ->
  forall path s,
    errors (check (fst (filepath.walk (walkFn lib l patternmatcher value)
                          path n s)))
    = errors (check s)
      ++ flat_map (recorded lib l patternmatcher value)
           (fst (scan lib patternmatcher path n))
    /\ match snd (scan lib patternmatcher path n) with
       | Some e =>
           snd (filepath.walk (walkFn lib l patternmatcher value) path n s)
           = filepath.Err e
       | None =>
           snd (filepath.walk (walkFn lib l patternmatcher value) path n s)
           = filepath.Nil
           \/ snd (filepath.walk (walkFn lib l patternmatcher value) path n s)
              = filepath.SkipDir
              /\ os.IsDir n = true
       end.
Proof.
  induction n as [name regular data | name listing entries IH | name e]
    using node_induction; intros Hlstat path s.
  - rewrite walk_File. cbn [scan fst snd]. split.
    + rewrite walkFn_frame. simpl. now rewrite app_nil_r.
    + apply walkFn_result.
  - rewrite walk_Dir. cbv zeta. destruct listing as [e|].
    + cbn [scan fst snd walkFn]. simpl. rewrite app_nil_r. now split.
    + rewrite scan_Dir.
      assert (Hfn : forall s0,
        walkFn lib l patternmatcher value path (Dir name None entries) None s0
        = (s0, if Relative lib patternmatcher path true
               then filepath.SkipDir else filepath.Nil)).
      { intros s0. unfold walkFn, skip_test. cbn [os.IsDir os.IsRegular].
        now destruct (Relative lib patternmatcher path true). }
      rewrite Hfn. clear Hfn.
      destruct (Relative lib patternmatcher path true).
      * simpl. rewrite app_nil_r. split; [reflexivity | right; now split].
      * cbv iota beta.
        change (errors (check s))
          with (errors (check (log (SysReadDirNames path) s))).
        generalize (log (SysReadDirNames path) s) as s1. clear s Hlstat.
        assert (Hnames : forall s1,
          errors (check (fst (filepath.walk_names
                                (walkFn lib l patternmatcher value)
                                path entries s1)))
          = errors (check s1)
            ++ flat_map (recorded lib l patternmatcher value)
                 (fst (scan_names lib patternmatcher path entries))
          /\ snd (filepath.walk_names (walkFn lib l patternmatcher value)
                   path entries s1)
             = match snd (scan_names lib patternmatcher path entries) with
               | Some e => filepath.Err e
               | None => filepath.Nil
               end).
        { induction IH as [|m rest Hm _ IHrest]; intros s1.
          - simpl. rewrite app_nil_r. now split.
          - cbn [filepath.walk_names scan_names]. cbv zeta.
            set (filename := filepath.Join path (os.Name m)).
            destruct (os.Lstat m) as [e|] eqn:Hm_lstat.
            + destruct m as [? ? ? | ? ? ? | bname be]; try discriminate.
              injection Hm_lstat as ->.
              cbn [scan walkFn fst snd]. simpl. rewrite app_nil_r.
              now split.
            + destruct (Hm eq_refl filename (log (SysLstat filename) s1))
                as [Herr Hres].
              destruct (filepath.walk (walkFn lib l patternmatcher value)
                          filename m (log (SysLstat filename) s1))
                as [s2 r].
              destruct (scan lib patternmatcher filename m)
                as [seen [e|]]; cbn [fst snd] in Herr, Hres.
              * subst r. cbn [fst snd]. now split.
              * destruct (IHrest s2) as [Herr2 Hres2].
                destruct (scan_names lib patternmatcher path rest)
                  as [seen' failed'] eqn:Hrest.
                cbn [fst snd] in Herr2, Hres2 |- *.
                assert (Hgo :
                  errors (check (fst (filepath.walk_names
                                        (walkFn lib l patternmatcher value)
                                        path rest s2)))
                  = errors (check s1)
                    ++ flat_map (recorded lib l patternmatcher value)
                         (seen ++ seen')
                  /\ snd (filepath.walk_names
                           (walkFn lib l patternmatcher value) path rest s2)
                     = match failed' with
                       | Some e => filepath.Err e
                       | None => filepath.Nil
                       end).
                { split; [|exact Hres2].
                  rewrite Herr2, Herr, flat_map_app. simpl.
                  now rewrite app_assoc. }
                destruct Hres as [-> | [-> Hdir]]; [exact Hgo|].
                rewrite Hdir. exact Hgo. }
        intros s1. destruct (Hnames s1) as [Herr Hres].
        split; [exact Herr|]. rewrite Hres.
        destruct (snd (scan_names lib patternmatcher path entries));
          [reflexivity | now left].
  - discriminate.
Qed.

(** [filepath.Walk] from the root: the same, and the error it returns is
    the failure [scan] stops at. *)
Lemma Walk_scan (tree : node) (s : state) :
  errors (check (fst (filepath.Walk "." tree
                        (walkFn lib l patternmatcher value) s)))
  = errors (check s)
    ++ flat_map (recorded lib l patternmatcher value)
         (fst (scan lib patternmatcher "." tree))
  /\ snd (filepath.Walk "." tree (walkFn lib l patternmatcher value) s)
     = snd (scan lib patternmatcher "." tree).
Proof.
  unfold filepath.Walk. cbv zeta.
  destruct (os.Lstat tree) as [e|] eqn:Hlstat.
  - destruct tree as [? ? ? | ? ? ? | name e0]; try discriminate.
    injection Hlstat as ->. cbn [scan walkFn fst snd]. simpl.
    rewrite app_nil_r. now split.
  - destruct (walk_scan tree Hlstat "." (log (SysLstat ".") s))
      as [Herr Hres].
    destruct (filepath.walk (walkFn lib l patternmatcher value) "." tree
                (log (SysLstat ".") s)) as [s1 r].
    cbn [fst snd] in Herr, Hres.
    destruct (snd (scan lib patternmatcher "." tree)) as [e|].
    + subst r. now split.
    + destruct Hres as [-> | [-> _]]; now split.
Qed.
End Scan.

(** The errors of the whole check with a header configured: those of the
    skip patterns, then what the closure records for each entry the walk
    sees, then the failure of the walk, if it fails. *)
Lemma run_report (lib : Library) (l : License) (tree : node) :
  Header l <> "" ->
  errors (check (ValidateLicenseHeader lib l tree))
  = map Underlying (fst (parse lib (pattern_lines (SkipPaths l))))
    ++ flat_map
         (recorded lib l (snd (parse lib (pattern_lines (SkipPaths l))))
            (list_byte_of_string (Header l)))
         (fst (scan lib (snd (parse lib (pattern_lines (SkipPaths l))))
                 "." tree))
    ++ match snd (scan lib (snd (parse lib (pattern_lines (SkipPaths l))))
                    "." tree) with
       | Some e =>
           [pkgerrors.Errorf ("Failed to walk directory: " ++ Error e)%string]
       | None => []
       end.
Proof.
  intros Hheader. apply String.eqb_neq in Hheader.
  unfold ValidateLicenseHeader. rewrite New_from_start, Hheader.
  set (s0 := {| check := _; trace := [] |}).
  destruct (Walk_scan lib l (snd (parse lib (pattern_lines (SkipPaths l))))
              (list_byte_of_string (Header l)) tree s0) as [Herr Hres].
  destruct (filepath.Walk "." tree _ s0) as [s' err].
  cbn [fst snd] in Herr, Hres. subst err.
  destruct (snd (scan lib _ "." tree)) as [e|].
  - simpl errors. rewrite Herr. simpl. now rewrite <- app_assoc.
  - rewrite Herr. simpl. now rewrite app_nil_r.
Qed.

Section Surfaced.
Variable lib : Library.
Variable l : License.

(** A selected regular file among the entries the walk sees is reported
    when it deserves it. *)
Lemma seen_file_reported (tree : node) (p name : string)
  (data : option (list byte)) :
  Header l <> "" ->
  In (p, File name true data)
     (fst (scan lib (snd (parse lib (pattern_lines (SkipPaths l))))
             "." tree)) ->
  selected l name ->
  match data with
  | None =>
      In (failed_to_open p)
         (errors (check (ValidateLicenseHeader lib l tree)))
  | Some contents =>
      ~ begins_with contents (list_byte_of_string (Header l)) ->
      In (no_license_header p)
         (errors (check (ValidateLicenseHeader lib l tree)))
  end.
Proof.
  intros Hheader Hseen Hsel. rewrite (run_report lib l tree Hheader).
  pose proof (recorded_selected lib l
                (snd (parse lib (pattern_lines (SkipPaths l))))
                p name data Hsel) as Hrec.
  destruct data as [contents|].
  - intros Hprefix. apply in_or_app. right. apply in_or_app. left.
    apply in_flat_map. exists (p, File name true (Some contents)).
    split; [exact Hseen | now apply Hrec].
  - apply in_or_app. right. apply in_or_app. left.
    apply in_flat_map. exists (p, File name true None). now split.
Qed.

(** The error of every skip pattern the parser refuses is in the check,
    with or without a header. *)
Lemma pattern_errors_reported (tree : node) (g : GitError) :
  In g (fst (parse lib (pattern_lines (SkipPaths l)))) ->
  In (Underlying g) (errors (check (ValidateLicenseHeader lib l tree))).
Proof.
  intros Hin. apply (in_map Underlying) in Hin.
  destruct (String.eqb_spec (Header l) "") as [Hheader | Hheader].
  - unfold ValidateLicenseHeader. rewrite New_from_start, Hheader. simpl.
    apply in_or_app. now left.
  - rewrite (run_report lib l tree Hheader). apply in_or_app. now left.
Qed.

Variable Options : Type.

(** C7: [Compliance] returns a [nil] error for every configuration,
    every options pointer and every tree, and the failures are in the
    errors of the one check of the report it returns: the error of every
    skip pattern the parser refuses; the missing header, when the header
    is empty; and, when it is not, the read failure or the missing header
    of every selected regular file the walk sees, and the failure of the
    walk itself, wrapped, when an entry cannot be [lstat]ed or listed. *)
Theorem Compliance_returns_nil (options : option Options) (tree : node) :
  snd (Compliance lib Options l options tree) = None
  /\ exists c,
       policy.checks (fst (Compliance lib Options l options tree)) = [c]
       /\ (forall g,
              In g (fst (parse lib (pattern_lines (SkipPaths l)))) ->
              In (Underlying g) (policy.Errors c))
       /\ (Header l = "" ->
           In (pkgerrors.New "Header is not defined") (policy.Errors c))
       /\ (Header l <> "" ->
           (forall p name data,
               In (p, File name true data)
                  (fst (scan lib
                          (snd (parse lib (pattern_lines (SkipPaths l))))
                          "." tree)) ->
               selected l name ->
               match data with
               | None => In (failed_to_open p) (policy.Errors c)
               | Some contents =>
                   ~ begins_with contents (list_byte_of_string (Header l)) ->
                   In (no_license_header p) (policy.Errors c)
               end)
           /\ (forall e,
                  snd (scan lib
                         (snd (parse lib (pattern_lines (SkipPaths l))))
                         "." tree) = Some e ->
                  In (pkgerrors.Errorf
                        ("Failed to walk directory: " ++ Error e)%string)
                     (policy.Errors c))).
Proof.
  split; [reflexivity|].
  exists (as_Check (check (ValidateLicenseHeader lib l tree))).
  split; [reflexivity|].
  change (policy.Errors (as_Check (check (ValidateLicenseHeader lib l tree))))
    with (errors (check (ValidateLicenseHeader lib l tree))).
  split; [intros g; apply pattern_errors_reported|]. split.
  - intros Hheader. unfold ValidateLicenseHeader.
    rewrite New_from_start, Hheader. simpl. apply in_or_app. right. now left.
  - intros Hheader. split.
    + intros p name data. now apply seen_file_reported.
    + intros e Hscan. rewrite (run_report lib l tree Hheader), Hscan.
      apply in_or_app. right. apply in_or_app. right. now left.
Qed.


(** A clean run gives a clean check: when the walk meets no entry that
    fails, the skip patterns parse, the header is configured, and every
    selected regular file the walk sees can be read and begins with the
    header, the check holds no error at all.  What lies below a matched
    directory is not seen and does not count. *)
Theorem clean_tree_clean_report (tree : node) :
  snd (scan lib (snd (parse lib (pattern_lines (SkipPaths l)))) "." tree)
  = None ->
  Header l <> "" ->
  fst (parse lib (pattern_lines (SkipPaths l))) = [] ->
  (forall p name data,
      In (p, File name true data)
         (fst (scan lib (snd (parse lib (pattern_lines (SkipPaths l))))
                 "." tree)) ->
      selected l name ->
      exists contents,
        data = Some contents
        /\ begins_with contents (list_byte_of_string (Header l))) ->
  errors (check (ValidateLicenseHeader lib l tree)) = [].
Proof.
  intros Hscan Hheader Hclean Hfiles.
  rewrite (run_report lib l tree Hheader), Hclean, Hscan. simpl.
  rewrite app_nil_r.
  induction (fst (scan lib (snd (parse lib (pattern_lines (SkipPaths l))))
                    "." tree)) as [|[p n] rest IH]; [reflexivity|].
  simpl. rewrite IH by (intros; eapply Hfiles; [right|]; eassumption).
  rewrite app_nil_r.
  destruct n as [name regular data | name listing entries | name e].
  - apply recorded_compliant. intros -> Hsel.
    apply (Hfiles p name data); [now left | exact Hsel].
  - unfold recorded, walkFn, skip_test. cbn [fst snd os.IsDir os.IsRegular].
    now destruct (Relative lib _ p true).
  - unfold recorded, walkFn, skip_test. cbn [fst snd os.IsDir os.IsRegular].
    now destruct (Relative lib _ p false).
Qed.
End Surfaced.

(** ** These theorems at concrete inputs *)

Lemma Compliance_returns_nil_witness :
  snd (Compliance sample.literal unit sample.go_files None sample.damaged)
  = None
  /\ exists c,
       policy.checks
         (fst (Compliance sample.literal unit sample.go_files None
                 sample.damaged)) = [c]
       /\ In (failed_to_open "x.go") (policy.Errors c)
       /\ In (no_license_header "y.go") (policy.Errors c)
       /\ In (Fundamental
                "Failed to walk directory: lstat z: permission denied")
             (policy.Errors c).
Proof.
  destruct (Compliance_returns_nil sample.literal sample.go_files unit None
              sample.damaged) as [Hnil [c [Hc [_ [_ Hwalk]]]]].
  destruct Hwalk as [Hfiles Hfail]; [discriminate|].
  split; [exact Hnil|]. exists c. split; [exact Hc|].
  assert (Hx : selected sample.go_files "x.go").
  { split; [constructor|]. apply Exists_cons_hd. exists "x". reflexivity. }
  assert (Hy : selected sample.go_files "y.go").
  { split; [constructor|]. apply Exists_cons_hd. exists "y". reflexivity. }
  split; [|split].
  - apply (Hfiles "x.go" "x.go" None); [vm_compute; now left | exact Hx].
  - apply (Hfiles "y.go" "y.go" (Some sample.without_header));
      [vm_compute; right; now left | exact Hy |].
    apply HasPrefix_false. reflexivity.
  - apply (Hfail (Foreign "lstat z: permission denied")). reflexivity.
Defined.


Lemma clean_tree_clean_report_witness :
  errors (check (ValidateLicenseHeader sample.literal sample.go_files
                   (Dir "." None
                      [File "README" true (Some sample.without_header);
                       File "a.go" true (Some sample.with_header);
                       Dir "vendor" None
                         [Broken "c.go"
                            (Foreign "lstat vendor/c.go: permission denied")]])))
  = [].
Proof.
  apply (clean_tree_clean_report sample.literal sample.go_files).
  - reflexivity.
  - discriminate.
  - reflexivity.
  - intros p name data Hin [_ Hincl]. apply excluded_spec in Hincl.
    destruct Hin as [Heq | [Heq | []]]; injection Heq as <- <- <-.
    + discriminate Hincl.
    + exists sample.with_header. split; [reflexivity|].
      exists (list_byte_of_string ("package a" ++ LF)). reflexivity.
Defined.
